(** * plc_dashboard.py: bounded sample store, PLC connection manager, query routes

    A shallow embedding of [src/plc_dashboard.py].

    - Python objects with mutable fields become records threaded through a
      state-and-exception monad [M S A := S -> result A * S]; an exception is
      represented by its message ([str(exc)]), which is all the program ever
      looks at.
    - [collections.deque(maxlen=n)] is a record holding its bound and its
      items, oldest first; [collections.defaultdict] is a [gmap] together with
      the factory call made by [__getitem__] on a missing key.
    - The snap7 client and [snap7.util] are an external library: they are
      taken as the interfaces [Client], over an abstract session state, and
      [Util].
      [get_connected] is an observation of that state returning a [bool]:
      a session query that raises is not modelled, and what is said of
      [_ensure_connection], [read_tags] and the reader is said of calls in
      which it returns.
    - Locks and logging have no effect on the values computed and are left
      out; every function is modelled as run by one thread from start to end.
    - [PLCReader.run] is modelled pass by pass, the start time of each pass
      given; thread start and stop, the sleep between passes and the page
      template of [index] are left out.
    - What another thread can see of a manager while one of its methods runs
      is modelled in [Steps], which records the state after every statement. *)

From Stdlib Require Import ZArith Ascii String.
From stdpp Require Import gmap strings list fin_maps.

Local Open Scope string_scope.
Local Open Scope list_scope.
Local Open Scope Z_scope.

(** ** Exceptions and state *)

Inductive result (A : Type) : Type :=
| Ok (a : A)
| Raise (msg : string).
Arguments Ok {A} a.
Arguments Raise {A} msg.

Definition M (S A : Type) : Type := S -> result A * S.

Definition ret {S A} (a : A) : M S A := fun s => (Ok a, s).

Definition bind {S A B} (c : M S A) (k : A -> M S B) : M S B :=
  fun s =>
    match c s with
    | (Ok a, s') => k a s'
    | (Raise e, s') => (Raise e, s')
    end.

Definition get {S} : M S S := fun s => (Ok s, s).
Definition put {S} (s : S) : M S unit := fun _ => (Ok tt, s).
Definition modify {S} (f : S -> S) : M S unit := fun s => (Ok tt, f s).

(** A pure computation that may raise, run inside [M]. *)
Definition lift {S A} (r : result A) : M S A := fun s => (r, s).

(** [try: body except Exception as exc: handler exc]. State changes made by
    [body] before it raised are kept. *)
Definition try_except {S A} (body : M S A) (handler : string -> M S A) : M S A :=
  fun s =>
    match body s with
    | (Ok a, s') => (Ok a, s')
    | (Raise e, s') => handler e s'
    end.

Notation "x <- c ;; k" := (bind c (fun x => k))
  (at level 100, c at next level, right associativity).
Notation "c ;;; k" := (bind c (fun _ => k))
  (at level 100, right associativity).

(** ** collections.deque with a bound *)

Record deque (A : Type) : Type := mk_deque {
  dq_maxlen : Z;
  dq_items : list A
}.
Arguments mk_deque {A} _ _.
Arguments dq_maxlen {A} _.
Arguments dq_items {A} _.

(** [deque(maxlen=n)]: a negative bound is a [ValueError]. *)
Definition deque_new {A} (n : Z) : result (deque A) :=
  if n <? 0 then Raise "maxlen must be non-negative"
  else Ok (mk_deque n []).

(** [d.append(x)]: the item goes in on the right, and when that makes the deque
    longer than its bound the leftmost item is dropped. *)
Definition deque_append {A} (x : A) (d : deque A) : deque A :=
  let items := dq_items d ++ [x] in
  mk_deque (dq_maxlen d)
    (if dq_maxlen d <? Z.of_nat (length items) then tail items else items).

(** ** class DataBuffer *)

Module DataBuffer.
Section Store.
(** Timestamps are floats and values are [Any]; the store never looks inside
    either. *)
Context {T V : Type}.

Definition Sample : Type := T * V.

Record t : Type := mk {
  maxlen : Z;
  _data : gmap string (deque Sample)
}.

Definition __init__ (n : Z) : t := mk n ∅.

(** [self._data[key]] on the defaultdict: a missing key is created by the
    factory [lambda: deque(maxlen=maxlen)] and stored. *)
Definition _data_getitem (key : string) : M t (deque Sample) :=
  s <- get ;;
  match _data s !! key with
  | Some d => ret d
  | None =>
      d <- lift (deque_new (maxlen s)) ;;
      put (mk (maxlen s) (<[key := d]> (_data s))) ;;;
      ret d
  end.

(** [self._data.get(key, default)]: plain [dict.get], the factory is not
    called and nothing is stored. *)
Definition _data_get (key : string) (default : list Sample) : M t (list Sample) :=
  s <- get ;;
  ret (match _data s !! key with
       | Some d => dq_items d
       | None => default
       end).

(** The deque found (or created) under [key] is updated in place. *)
Definition append (key : string) (timestamp : T) (value : V) : M t unit :=
  d <- _data_getitem key ;;
  modify (fun s => mk (maxlen s) (<[key := deque_append (timestamp, value) d]> (_data s))).

(** The dict comprehension [{key: list(...) for key in keys}]. *)
Fixpoint snapshot_from (keys : list string) (acc : gmap string (list Sample))
  : M t (gmap string (list Sample)) :=
  match keys with
  | [] => ret acc
  | key :: rest =>
      l <- _data_get key [] ;;
      snapshot_from rest (<[key := l]> acc)
  end.

Definition snapshot (keys : list string) : M t (gmap string (list Sample)) :=
  snapshot_from keys ∅.

(** A run of [append] calls, stopping at the first one that raises. *)
Fixpoint appends (ops : list (string * Sample)) : M t unit :=
  match ops with
  | [] => ret tt
  | (key, (ts, v)) :: rest => append key ts v ;;; appends rest
  end.

(** The samples a run of calls appended to [key], in call order. *)
Definition appended_to (key : string) (ops : list (string * Sample)) : list Sample :=
  snd <$> filter (fun op => op.1 = key) ops.

End Store.
End DataBuffer.

(** ** Strings *)

(** [str.lower()] on the ASCII letters. The result is only ever compared with
    the ASCII words real, int, dint and bool, and no character outside ASCII
    lower-cases to a letter of those words, so the other characters can be
    left as they are. *)
Definition lower_ascii (c : ascii) : ascii :=
  let n := nat_of_ascii c in
  if ((65 <=? n) && (n <=? 90))%nat then ascii_of_nat (n + 32) else c.

Fixpoint lower (s : string) : string :=
  match s with
  | EmptyString => EmptyString
  | String c rest => String (lower_ascii c) (lower rest)
  end.

(** [s.split(sep)] for a one-character separator: never an empty list. *)
Fixpoint split (sep : ascii) (s : string) : list string :=
  match s with
  | EmptyString => [EmptyString]
  | String c rest =>
      if Ascii.eqb c sep then EmptyString :: split sep rest
      else match split sep rest with
           | [] => [String c EmptyString]
           | w :: ws => String c w :: ws
           end
  end.

(** [sep.join(parts)]. *)
Fixpoint join (sep : string) (parts : list string) : string :=
  match parts with
  | [] => ""
  | [p] => p
  | p :: rest => p +:+ sep +:+ join sep rest
  end.

(** Truth value of a string: empty is false. *)
Definition truthy (s : string) : bool :=
  match s with
  | EmptyString => false
  | String _ _ => true
  end.

(** ** The snap7 library *)

Definition bytes : Type := list Byte.byte.

(** The calls made on [self.client], recorded in call order. *)
Inductive ClientCall : Type :=
| CallConnect (ip : string) (rack slot : Z)
| CallGetConnected
| CallDbRead (db_number start size : Z).

(** [snap7.client.Client] over its session state [C]. *)
Class Client (C : Type) : Type := {
  client_connect : string -> Z -> Z -> M C unit;
  client_get_connected : C -> bool;
  client_db_read : Z -> Z -> Z -> M C bytes
}.

(** [snap7.util] decoders producing values of type [V]; on a buffer that is
    too short they raise. *)
Class Util (V : Type) : Type := {
  get_real : bytes -> Z -> result V;
  get_int : bytes -> Z -> result V;
  get_dint : bytes -> Z -> result V;
  get_bool : bytes -> Z -> Z -> result V
}.

(** ** class Tag *)

Module Tag.
Record t (V : Type) : Type := mk {
  name : string;
  db_number : Z;
  start : Z;
  size : Z;
  data_type : string;
  parse : option (bytes -> result V)
}.
Arguments mk {V} _ _ _ _ _ _.
Arguments name {V} _.
Arguments db_number {V} _.
Arguments start {V} _.
Arguments size {V} _.
Arguments data_type {V} _.
Arguments parse {V} _.
End Tag.

(** How one pass of a [for] loop body ends. *)
Inductive loop_ctl (A : Type) : Type :=
| Continue (a : A)
| Break.
Arguments Continue {A} a.
Arguments Break {A}.

(** ** class PLCManager *)

Module PLCManager.
Section Manager.
Context {C V : Type} `{!Client C} `{!Util V}.

Record t : Type := mk {
  name : string;
  ip : string;
  rack : Z;
  slot : Z;
  tags : list (Tag.t V);
  client : C;
  last_error : option string;
  connected : bool;
  (** not a field of the class: the calls made on [client] so far *)
  calls : list ClientCall
}.

Definition __init__ (name ip : string) (rack slot : Z) (tags : list (Tag.t V))
    (fresh_client : C) : t :=
  mk name ip rack slot tags fresh_client None false [].

Definition set_connected (b : bool) : M t unit :=
  modify (fun m => mk (name m) (ip m) (rack m) (slot m) (tags m) (client m)
                      (last_error m) b (calls m)).

Definition set_last_error (e : option string) : M t unit :=
  modify (fun m => mk (name m) (ip m) (rack m) (slot m) (tags m) (client m)
                      e (connected m) (calls m)).

(** Run a call of the client on [self.client] and record it. *)
Definition on_client {A} (call : ClientCall) (op : M C A) : M t A :=
  fun m =>
    let '(r, c') := op (client m) in
    (r, mk (name m) (ip m) (rack m) (slot m) (tags m) c'
           (last_error m) (connected m) (calls m ++ [call])).

Definition call_connect (ip : string) (rack slot : Z) : M t unit :=
  on_client (CallConnect ip rack slot) (client_connect ip rack slot).

Definition call_get_connected : M t bool :=
  on_client CallGetConnected (fun c => (Ok (client_get_connected c), c)).

Definition call_db_read (db_number start size : Z) : M t bytes :=
  on_client (CallDbRead db_number start size) (client_db_read db_number start size).

Definition connect : M t unit :=
  m <- get ;;
  if connected m then ret tt
  else
    try_except
      (call_connect (ip m) (rack m) (slot m) ;;;
       b <- call_get_connected ;;
       set_connected b ;;;
       set_last_error (if b then None else Some "Unknown connection issue"))
      (fun exc =>
         set_connected false ;;;
         set_last_error (Some ("Connection error: " +:+ exc))).

(** [not self.connected or not self.client.get_connected()]: the client is
    only asked when the flag is set. *)
Definition _ensure_connection : M t bool :=
  m <- get ;;
  lost <- (if negb (connected m) then ret true
           else alive <- call_get_connected ;; ret (negb alive)) ;;
  (if lost : bool then set_connected false ;;; connect else ret tt) ;;;
  m' <- get ;;
  ret (connected m').

Definition _parse_value (tag : Tag.t V) (raw : bytes) : result V :=
  match Tag.parse tag with
  | Some parse => parse raw
  | None =>
      let data_type := lower (Tag.data_type tag) in
      if String.eqb data_type "real" then get_real raw 0
      else if String.eqb data_type "int" then get_int raw 0
      else if String.eqb data_type "dint" then get_dint raw 0
      else if String.eqb data_type "bool" then get_bool raw 0 0
      else Raise ("Unsupported data type: " +:+ Tag.data_type tag)
  end.

(** The body of the [for tag in self.tags] loop: [values] is only updated
    when both the read and the decoding went through. *)
Definition read_tag (tag : Tag.t V) (values : gmap string V)
  : M t (loop_ctl (gmap string V)) :=
  try_except
    (raw <- call_db_read (Tag.db_number tag) (Tag.start tag) (Tag.size tag) ;;
     v <- lift (_parse_value tag raw) ;;
     ret (Continue (<[Tag.name tag := v]> values)))
    (fun exc =>
       set_last_error (Some ("Read error for " +:+ Tag.name tag +:+ ": " +:+ exc)) ;;;
       set_connected false ;;;
       ret Break).

Fixpoint read_loop (tags : list (Tag.t V)) (values : gmap string V)
  : M t (gmap string V) :=
  match tags with
  | [] => ret values
  | tag :: rest =>
      r <- read_tag tag values ;;
      match r with
      | Continue values' => read_loop rest values'
      | Break => ret values
      end
  end.

Definition read_tags : M t (gmap string V) :=
  ok <- _ensure_connection ;;
  if negb ok then ret ∅
  else m <- get ;; read_loop (tags m) ∅.

End Manager.
End PLCManager.

(** ** Python dict literals with mixed values *)

(** What the [/health] route returns: strings, booleans and dicts keyed by
    strings. A dict keeps its keys in insertion order. *)
#[local] Set Warnings "-register-all".
Inductive pyobj : Type :=
| PStr (s : string)
| PBool (b : bool)
| PDict (items : list (string * pyobj)).

(** [d[k] = v]: an existing key keeps its place and gets the new value. *)
Fixpoint dict_set {A} (k : string) (v : A) (d : list (string * A)) : list (string * A) :=
  match d with
  | [] => [(k, v)]
  | (k', v') :: rest =>
      if String.eqb k' k then (k, v) :: rest else (k', v') :: dict_set k v rest
  end.

Fixpoint dict_get {A} (k : string) (d : list (string * A)) : option A :=
  match d with
  | [] => None
  | (k', v') :: rest => if String.eqb k' k then Some v' else dict_get k rest
  end.

(** Member access on a [pyobj]; only a dict has members. *)
Definition member (k : string) (o : pyobj) : option pyobj :=
  match o with
  | PDict items => dict_get k items
  | _ => None
  end.

(** ** The Flask routes *)

Module Routes.
Section Routes.
Context {C T V : Type}.

Abbreviation Manager := (@PLCManager.t C V).
Abbreviation Buffer := (@DataBuffer.t T V).

(** The dict handed to [jsonify] by [data]. *)
Record DataResponse : Type := mk_response {
  series : gmap string (list (@DataBuffer.Sample T V));
  status : string
}.

(** One pass of the [for manager in managers] loop of [data]. *)
Definition status_part (manager : Manager) : string :=
  if PLCManager.connected manager then
    PLCManager.name manager +:+ ": verbunden"
  else
    match PLCManager.last_error manager with
    | Some e =>
        if truthy e then PLCManager.name manager +:+ ": " +:+ e
        else PLCManager.name manager +:+ ": nicht verbunden"
    | None => PLCManager.name manager +:+ ": nicht verbunden"
    end.

Fixpoint status_loop (managers : list Manager) (status_parts : list string)
  : list string :=
  match managers with
  | [] => status_parts
  | manager :: rest => status_loop rest (status_parts ++ [status_part manager])
  end.

(** [data()]: [args] is [request.args], [managers] the global list, and the
    state is the global buffer. *)
Definition data (args : gmap string string) (managers : list Manager)
  : M Buffer DataResponse :=
  let selected_param := default "" (args !! "signals") in
  let selected := List.filter truthy (split "," selected_param) in
  series <- DataBuffer.snapshot selected ;;
  ret (mk_response series (join " | " (status_loop managers []))).

(** The dict comprehension [{m.name: m.connected for m in managers}]. *)
Fixpoint plcs_from (managers : list Manager) (acc : list (string * pyobj))
  : list (string * pyobj) :=
  match managers with
  | [] => acc
  | m :: rest =>
      plcs_from rest (dict_set (PLCManager.name m) (PBool (PLCManager.connected m)) acc)
  end.

Definition health (managers : list Manager) : pyobj :=
  PDict [("status", PStr "ok"); ("plcs", PDict (plcs_from managers []))].

End Routes.
End Routes.

(** ** class PLCReader *)

(** Run a method of one object of a pair, leaving the other alone. *)
Definition in_fst {A B X} (c : M A X) : M (A * B) X :=
  fun s => let '(r, a) := c s.1 in (r, (a, s.2)).

Definition in_snd {A B X} (c : M B X) : M (A * B) X :=
  fun s => let '(r, b) := c s.2 in (r, (s.1, b)).

Module PLCReader.
Section Reader.
Context {C T V : Type} `{!Client C} `{!Util V}.

(** [f"{self.manager.name}.{name}"]. *)
Definition key_of (device name : string) : string :=
  device +:+ "." +:+ name.

(** The loop [for name, value in values.items()] of [run], over the items of
    the dict in the order the dict gives them. *)
Fixpoint publish (device : string) (start_time : T) (items : list (string * V))
  : M (@DataBuffer.t T V) unit :=
  match items with
  | [] => ret tt
  | (name, value) :: rest =>
      DataBuffer.append (key_of device name) start_time value ;;;
      publish device start_time rest
  end.

(** One pass of the [while] loop of [run], up to the sleep: the state is the
    manager of the reader and the shared buffer, [start_time] is what
    [time.time()] returned. A dict of distinct names is enumerated by
    [map_to_list]; [publish_any_order] shows that the order does not matter. *)
Definition cycle (start_time : T) : M (@PLCManager.t C V * @DataBuffer.t T V) unit :=
  values <- in_fst PLCManager.read_tags ;;
  s <- get ;;
  in_snd (publish (PLCManager.name s.1) start_time (map_to_list values)).

(** The passes made while the stop event is not set, one per start time. *)
Fixpoint cycles (start_times : list T)
  : M (@PLCManager.t C V * @DataBuffer.t T V) unit :=
  match start_times with
  | [] => ret tt
  | start_time :: rest => cycle start_time ;;; cycles rest
  end.

End Reader.
End PLCReader.

(** ** Configuration *)

(** One entry of [plc_config]. *)
Module PlcConfig.
Record t (V : Type) : Type := mk {
  name : string;
  ip : string;
  rack : Z;
  slot : Z;
  tags : list (Tag.t V)
}.
Arguments mk {V} _ _ _ _ _.
Arguments name {V} _.
Arguments ip {V} _.
Arguments rack {V} _.
Arguments slot {V} _.
Arguments tags {V} _.
End PlcConfig.

Definition real_tag {V} (name : string) (db_number start : Z) : Tag.t V :=
  Tag.mk name db_number start 4 "real" None.

Definition plc_config {V} : list (PlcConfig.t V) :=
  [PlcConfig.mk "plc_1500" "192.168.0.10" 0 1
     [real_tag "thermo_1" 1 0; real_tag "thermo_2" 1 4; real_tag "pid_kp" 2 0;
      real_tag "pid_ki" 2 4; real_tag "pid_kd" 2 8; real_tag "pid_output" 2 12];
   PlcConfig.mk "plc_et200sp" "192.168.0.11" 0 1
     [real_tag "thermo_1" 3 0; real_tag "thermo_2" 3 4; real_tag "pid_kp" 4 0;
      real_tag "pid_ki" 4 4; real_tag "pid_kd" 4 8; real_tag "pid_output" 4 12]].

(** The loop of [build_managers] over a configuration; [fresh_client] is the
    state of a new [snap7.client.Client()]. *)
Fixpoint build_managers_from {C V} (fresh_client : C) (config : list (PlcConfig.t V))
    (managers : list (@PLCManager.t C V)) : list (@PLCManager.t C V) :=
  match config with
  | [] => managers
  | cfg :: rest =>
      build_managers_from fresh_client rest
        (managers ++ [PLCManager.__init__ (PlcConfig.name cfg) (PlcConfig.ip cfg)
                        (PlcConfig.rack cfg) (PlcConfig.slot cfg) (PlcConfig.tags cfg)
                        fresh_client])
  end.

Definition build_managers {C V} (fresh_client : C) (config : list (PlcConfig.t V))
  : list (@PLCManager.t C V) :=
  build_managers_from fresh_client config [].

(** The list [all_signals] of [index]: a comprehension over the managers and,
    for each, over its tags. *)
Definition all_signals {C V} (managers : list (@PLCManager.t C V)) : list string :=
  manager ← managers;
  tag ← PLCManager.tags manager;
  [PLCManager.name manager +:+ "." +:+ Tag.name tag].

(** ** The manager, statement by statement *)

(** Between two statements of a method another thread can run: the routes
    read [connected] and [last_error] without taking the lock of the
    manager. A computation in [MT] returns, next to its result and final
    state, the states it went through, one after each statement that
    changed the manager, oldest first. *)
Definition MT (S A : Type) : Type := S -> result A * S * list S.

Definition tret {S A} (a : A) : MT S A := fun s => (Ok a, s, []).

Definition tbind {S A B} (c : MT S A) (k : A -> MT S B) : MT S B :=
  fun s =>
    match c s with
    | (Ok a, s', seen) => let '(r, s'', seen') := k a s' in (r, s'', seen ++ seen')
    | (Raise e, s', seen) => (Raise e, s', seen)
    end.

Definition tget {S} : MT S S := fun s => (Ok s, s, []).

(** One statement: what it does is done at once, and the state it leaves can
    be seen. *)
Definition statement {S A} (c : M S A) : MT S A :=
  fun s => let '(r, s') := c s in (r, s', [s']).

Definition ttry_except {S A} (body : MT S A) (handler : string -> MT S A) : MT S A :=
  fun s =>
    match body s with
    | (Ok a, s', seen) => (Ok a, s', seen)
    | (Raise e, s', seen) => let '(r, s'', seen') := handler e s' in (r, s'', seen ++ seen')
    end.

Notation "x <~ c ;; k" := (tbind c (fun x => k))
  (at level 100, c at next level, right associativity).
Notation "c ~>> k" := (tbind c (fun _ => k))
  (at level 100, right associativity).

Module Steps.
Section Steps.
Context {C V : Type} `{!Client C} `{!Util V}.
Import PLCManager.

Definition connect : MT (@PLCManager.t C V) unit :=
  m <~ tget ;;
  if connected m then tret tt
  else
    ttry_except
      (statement (call_connect (ip m) (rack m) (slot m)) ~>>
       b <~ statement call_get_connected ;;
       statement (set_connected b) ~>>
       statement (set_last_error (if b then None else Some "Unknown connection issue")))
      (fun exc =>
         statement (set_connected false) ~>>
         statement (set_last_error (Some ("Connection error: " +:+ exc)))).

Definition _ensure_connection : MT (@PLCManager.t C V) bool :=
  m <~ tget ;;
  lost <~ (if negb (connected m) then tret true
           else alive <~ statement call_get_connected ;; tret (negb alive)) ;;
  (if lost : bool then statement (set_connected false) ~>> connect else tret tt) ~>>
  m' <~ tget ;;
  tret (connected m').

Definition read_tag (tag : Tag.t V) (values : gmap string V)
  : MT (@PLCManager.t C V) (loop_ctl (gmap string V)) :=
  ttry_except
    (raw <~ statement (call_db_read (Tag.db_number tag) (Tag.start tag) (Tag.size tag)) ;;
     v <~ statement (lift (_parse_value tag raw)) ;;
     tret (Continue (<[Tag.name tag := v]> values)))
    (fun exc =>
       statement
         (set_last_error (Some ("Read error for " +:+ Tag.name tag +:+ ": " +:+ exc))) ~>>
       statement (set_connected false) ~>>
       tret Break).

Fixpoint read_loop (tags : list (Tag.t V)) (values : gmap string V)
  : MT (@PLCManager.t C V) (gmap string V) :=
  match tags with
  | [] => tret values
  | tag :: rest =>
      r <~ read_tag tag values ;;
      match r with
      | Continue values' => read_loop rest values'
      | Break => tret values
      end
  end.

Definition read_tags : MT (@PLCManager.t C V) (gmap string V) :=
  ok <~ _ensure_connection ;;
  if negb ok then tret ∅
  else m <~ tget ;; read_loop (tags m) ∅.

End Steps.
End Steps.

(** ** flask.jsonify *)

(** [jsonify] of the dict that [data] builds returns when every value in the
    series can be serialised, and raises [TypeError] otherwise; the keys and
    the status are strings and the timestamps floats, which always can.
    Which values can is a matter of the encoder: [serialisable]. *)
Definition jsonify_returns {T V} (serialisable : V -> bool)
    (r : @Routes.DataResponse T V) : bool :=
  forallb (fun entry => forallb (fun sample => serialisable sample.2) entry.2)
    (map_to_list (Routes.series r)).

(** ** The range of a deque bound *)

(** [deque(maxlen=n)] takes its bound as a [Py_ssize_t]: on a 64-bit build
    an [n] outside this range raises [OverflowError] before the sign of [n]
    is looked at. [deque_new] is the constructor for bounds inside the range;
    properties that depend on the first [append] succeeding, or on the
    exception it raises, carry the range as a hypothesis. *)
Definition ssize_t_min : Z := - 2 ^ 63.
Definition ssize_t_max : Z := 2 ^ 63 - 1.

(** * Vocabulary of the properties *)

(** The last [n] items of a list. *)
Definition lastn {A} (n : Z) (l : list A) : list A :=
  drop (length l - Z.to_nat n) l.

Section StoreVocabulary.
Context {T V : Type}.
Import DataBuffer.

Abbreviation Sample := (@DataBuffer.Sample T V).
Abbreviation Buffer := (@DataBuffer.t T V).

(** What [snapshot] reads for one key. *)
Definition items_of (s : Buffer) (key : string) : list Sample :=
  match _data s !! key with
  | Some d => dq_items d
  | None => []
  end.

(** The store holds, for every key, the last [cap] samples of [ops]. *)
Definition tracks (cap : Z) (ops : list (string * Sample)) (s : Buffer) : Prop :=
  maxlen s = cap ∧
  ∀ key,
    match _data s !! key with
    | Some d => d = mk_deque cap (lastn cap (appended_to key ops))
    | None => appended_to key ops = []
    end.

End StoreVocabulary.

Section ManagerVocabulary.
Context {C V : Type} `{!Client C} `{!Util V}.
Import PLCManager.

Abbreviation Manager := (@PLCManager.t C V).

(** The manager with one more recorded call. *)
Definition recorded (call : ClientCall) (m : Manager) : Manager :=
  mk (name m) (ip m) (rack m) (slot m) (tags m) (client m)
     (last_error m) (connected m) (calls m ++ [call]).

(** The manager with its flag taken down. *)
Definition dropped (m : Manager) : Manager :=
  mk (name m) (ip m) (rack m) (slot m) (tags m) (client m)
     (last_error m) false (calls m).

(** Read the block of a tag from the session and decode it. *)
Definition fetch (tag : Tag.t V) : M C V :=
  raw <- client_db_read (Tag.db_number tag) (Tag.start tag) (Tag.size tag) ;;
  lift (_parse_value tag raw).

(** Read and decode a list of tags one after the other, up to the first
    failure. *)
Fixpoint reads (tags : list (Tag.t V)) : M C (list V) :=
  match tags with
  | [] => ret []
  | tag :: rest => v <- fetch tag ;; vs <- reads rest ;; ret (v :: vs)
  end.

(** The dict with the given tags set, in order, to the given values. *)
Definition values_from (acc : gmap string V) (tags : list (Tag.t V)) (vs : list V)
  : gmap string V :=
  foldl (fun acc p => <[Tag.name p.1 := p.2]> acc) acc (zip tags vs).

Definition db_read_call (tag : Tag.t V) : ClientCall :=
  CallDbRead (Tag.db_number tag) (Tag.start tag) (Tag.size tag).

(** The manager after its tags [read] were read with success, leaving the
    session in state [c]. *)
Definition after_reads (read : list (Tag.t V)) (c : C) (m : Manager) : Manager :=
  mk (name m) (ip m) (rack m) (slot m) (tags m) c
     (last_error m) (connected m) (calls m ++ (db_read_call <$> read)).

(** The manager after the read of [tag] failed with [exc]. *)
Definition after_failure (tag : Tag.t V) (exc : string) (c : C) (m : Manager) : Manager :=
  mk (name m) (ip m) (rack m) (slot m) (tags m) c
     (Some ("Read error for " +:+ Tag.name tag +:+ ": " +:+ exc)) false
     (calls m ++ [db_read_call tag]).

(** The type names [_parse_value] knows, compared as it compares them. *)
Definition supported (data_type : string) : bool :=
  String.eqb (lower data_type) "real" || String.eqb (lower data_type) "int"
  || String.eqb (lower data_type) "dint" || String.eqb (lower data_type) "bool".

(** The flag is only set when no error is recorded. *)
Definition consistent (m : Manager) : Prop :=
  connected m = true → last_error m = None.

(** The session replaced by another one: what the network does to it between
    two calls of the manager. *)
Definition with_session (c : C) (m : Manager) : Manager :=
  mk (name m) (ip m) (rack m) (slot m) (tags m) c
     (last_error m) (connected m) (calls m).

(** The managers that the constructor and the methods can produce. *)
Inductive reachable : Manager → Prop :=
| reach_init name ip rack slot tags c :
    reachable (__init__ name ip rack slot tags c)
| reach_connect m : reachable m → reachable (connect m).2
| reach_ensure m : reachable m → reachable (_ensure_connection m).2
| reach_read_tags m : reachable m → reachable (read_tags m).2
| reach_session m c : reachable m → reachable (with_session c m).

End ManagerVocabulary.

(** ** A small client to run the code on *)

(** The session is up or down. Connecting brings it up; block 9 cannot be
    read; any other block reads as one byte holding the start offset. *)
#[local] Instance demo_client : Client bool := {|
  client_connect _ _ _ := fun _ => (Ok tt, true);
  client_get_connected c := c;
  client_db_read db_number start _ := fun c =>
    if db_number =? 9 then (Raise "timeout", c)
    else (Ok (match Byte.of_N (Z.to_N start) with Some b => [b] | None => [] end), c)
|}.

Definition demo_decode (raw : bytes) : result Z :=
  match raw with
  | b :: _ => Ok (Z.of_N (Byte.to_N b))
  | [] => Raise "buffer too short"
  end.

#[local] Instance demo_util : Util Z := {|
  get_real raw _ := demo_decode raw;
  get_int raw _ := demo_decode raw;
  get_dint raw _ := demo_decode raw;
  get_bool raw _ _ := demo_decode raw
|}.

Definition demo_tag (name : string) (db_number start : Z) (data_type : string)
  : Tag.t Z :=
  Tag.mk name db_number start 4 data_type None.

(** Five signals, the third in the block that cannot be read. *)
Definition five_signals : PLCManager.t :=
  PLCManager.__init__ "dev" "192.168.0.10" 0 1
    [demo_tag "s1" 1 0 "real"; demo_tag "s2" 1 4 "real"; demo_tag "s3" 9 0 "real";
     demo_tag "s4" 2 0 "real"; demo_tag "s5" 2 4 "real"]
    false.

(** Three signals, the second of a type that is not known. *)
Definition odd_type_signals : PLCManager.t :=
  PLCManager.__init__ "dev" "192.168.0.10" 0 1
    [demo_tag "a" 1 0 "real"; demo_tag "b" 1 4 "string"; demo_tag "c" 1 8 "REAL"]
    false.

(** Two devices: one connected, one not and holding the error timeout. *)
Definition two_devices : list (@PLCManager.t bool Z) :=
  [PLCManager.mk "dev1" "192.168.0.10" 0 1 [] true None true [];
   PLCManager.mk "dev2" "192.168.0.11" 0 1 [] false (Some "timeout") false []].

(** ** Counting connection attempts *)

Definition is_connect_call (call : ClientCall) : bool :=
  match call with
  | CallConnect _ _ _ => true
  | _ => false
  end.

(** How many times [client.connect] was called. *)
Definition connect_attempts (calls : list ClientCall) : nat :=
  length (List.filter is_connect_call calls).

(** ** Characters of a string *)

(** Whether the character occurs in the string. *)
Fixpoint contains (c : ascii) (s : string) : bool :=
  match s with
  | EmptyString => false
  | String c' rest => Ascii.eqb c' c || contains c rest
  end.

(** ** Shown errors and sound buffers *)

(** No recorded error is the empty string. *)
Definition error_shown {C V} (m : @PLCManager.t C V) : Prop :=
  PLCManager.last_error m ≠ Some "".

(** Every deque of the buffer has the bound of the buffer, which is not
    negative, and respects it. *)
Definition well_formed {T V} (b : @DataBuffer.t T V) : Prop :=
  0 ≤ DataBuffer.maxlen b ∧
  ∀ key d, DataBuffer._data b !! key = Some d →
           dq_maxlen d = DataBuffer.maxlen b ∧
           Z.of_nat (length (dq_items d)) ≤ DataBuffer.maxlen b.

(** The manager that [build_managers] makes for one entry. *)
Definition initial {C V} (fresh_client : C) (cfg : PlcConfig.t V) : @PLCManager.t C V :=
  PLCManager.__init__ (PlcConfig.name cfg) (PlcConfig.ip cfg) (PlcConfig.rack cfg)
    (PlcConfig.slot cfg) (PlcConfig.tags cfg) fresh_client.

(** ** More to run the code on *)

(** A client that reaches nothing: every call that can fail does. *)
#[local] Instance dead_client : Client unit := {|
  client_connect _ _ _ := fun c => (Raise "unreachable", c);
  client_get_connected _ := false;
  client_db_read _ _ _ := fun c => (Raise "not connected", c)
|}.

(** A device behind the small client, all of its blocks readable. *)
Definition good_signals : @PLCManager.t bool Z :=
  PLCManager.__init__ "dev" "192.168.0.10" 0 1
    [demo_tag "x" 1 3 "real"; demo_tag "y" 2 5 "Int"]
    false.

(** The same device behind the client that reaches nothing. *)
Definition lost_signals : @PLCManager.t unit Z :=
  PLCManager.__init__ "dev" "192.168.0.10" 0 1
    [demo_tag "x" 1 3 "real"; demo_tag "y" 2 5 "Int"]
    tt.

(** * Properties *)

(** ** Strings *)

Example split_commas : split "," "A.x,,B.y" = ["A.x"; ""; "B.y"].
Proof. reflexivity. Qed.

Example split_empty : split "," "" = [""].
Proof. reflexivity. Qed.

Example lower_mixed : lower "DInt" = "dint".
Proof. reflexivity. Qed.

Example join_three : join " | " ["a"; "b"; "c"] = "a | b | c".
Proof. reflexivity. Qed.

(** ** The bounded store *)

Section StoreFacts.
Context {T V : Type}.
Import DataBuffer.

Abbreviation Sample := (@DataBuffer.Sample T V).
Abbreviation Buffer := (@DataBuffer.t T V).

Lemma lastn_nil {A} (n : Z) : lastn n (@nil A) = [].
Proof. unfold lastn. by rewrite drop_nil. Qed.

(** Appending to a window of the last [n] items and trimming on the left
    gives the window of the extended list. *)
Lemma deque_append_lastn (n : Z) (x : Sample) (l : list Sample) :
  0 ≤ n →
  deque_append x (mk_deque n (lastn n l)) = mk_deque n (lastn n (l ++ [x])).
Proof.
  intros Hn. unfold deque_append, lastn. cbn [dq_items dq_maxlen]. f_equal.
  rewrite !length_app, length_drop. cbn [length].
  destruct (decide (length l < Z.to_nat n)%nat) as [Hlt|Hge].
  - replace (length l - Z.to_nat n)%nat with 0%nat by lia.
    replace (length l + 1 - Z.to_nat n)%nat with 0%nat by lia.
    rewrite !drop_0.
    destruct (Z.ltb_spec n (Z.of_nat (length l - 0 + 1))); [lia | done].
  - destruct (Z.ltb_spec n (Z.of_nat (length l - (length l - Z.to_nat n) + 1))); [| lia].
    replace (length l + 1 - Z.to_nat n)%nat with (length l - Z.to_nat n + 1)%nat by lia.
    rewrite <- drop_drop, drop_app_le by lia.
    by destruct (drop (length l - Z.to_nat n) l ++ [x]).
Qed.

(** [append] on a store whose bound is not negative. *)
Lemma append_run (key : string) (ts : T) (v : V) (s : Buffer) :
  0 ≤ maxlen s →
  append key ts v s =
    (Ok tt,
     mk (maxlen s)
        (<[key := deque_append (ts, v)
                    (default (mk_deque (maxlen s) []) (_data s !! key))]> (_data s))).
Proof.
  intros Hn. unfold append, _data_getitem, bind, get, modify, lift, put, ret, deque_new.
  destruct (_data s !! key) as [d|] eqn:Hk; cbn.
  - done.
  - destruct (Z.ltb_spec (maxlen s) 0); [lia |]. cbn. by rewrite insert_insert_eq.
Qed.

(** [append] either raises and leaves the store as it was, or changes the
    entry of its own key only. *)
Lemma append_other (key key' : string) (ts : T) (v : V) (s : Buffer) :
  key ≠ key' → _data (append key ts v s).2 !! key' = _data s !! key'.
Proof.
  intros Hne. unfold append, _data_getitem, bind, get, modify, lift, put, ret, deque_new.
  destruct (_data s !! key) as [d|] eqn:Hk; cbn.
  - by rewrite lookup_insert_ne.
  - destruct (maxlen s <? 0); cbn; [done |].
    by rewrite !lookup_insert_ne.
Qed.

Lemma appends_other (key : string) (ops : list (string * Sample)) (s : Buffer) :
  key ∉ ops.*1 → _data (appends ops s).2 !! key = _data s !! key.
Proof.
  revert s. induction ops as [|[k [ts v]] ops IH]; intros s Hnot; [done |].
  rewrite fmap_cons, not_elem_of_cons in Hnot. destruct Hnot as [Hne Hnot].
  cbn [appends]. unfold bind at 1.
  pose proof (append_other k key ts v s (not_eq_sym Hne)) as Hk.
  destruct (append k ts v s) as [[[]|e] s']; cbn in *.
  - by rewrite IH.
  - done.
Qed.

Lemma appended_to_snoc (key k : string) (x : Sample) (ops : list (string * Sample)) :
  appended_to key (ops ++ [(k, x)]) =
    appended_to key ops ++ (if decide (k = key) then [x] else []).
Proof.
  unfold appended_to. rewrite filter_app, fmap_app. f_equal.
  rewrite filter_cons, filter_nil. cbn. by destruct (decide (k = key)).
Qed.

Lemma tracks_init (cap : Z) : tracks (T:=T) (V:=V) cap [] (__init__ cap).
Proof. split; [done |]. intros key. cbn. by rewrite lookup_empty. Qed.

Lemma tracks_append (cap : Z) (ops : list (string * Sample)) (s : Buffer)
    (k : string) (ts : T) (v : V) :
  0 ≤ cap → tracks cap ops s →
  ∃ s', append k ts v s = (Ok tt, s') ∧ tracks cap (ops ++ [(k, (ts, v))]) s'.
Proof.
  intros Hcap [Hmax Hinv]. eexists. split; [apply append_run; lia |].
  split; [done |]. intros key. cbn [_data]. rewrite appended_to_snoc.
  specialize (Hinv key) as Hkey. destruct (decide (k = key)) as [->|Hne].
  - rewrite lookup_insert_eq, Hmax.
    destruct (_data s !! key) as [d|]; cbn [default].
    + subst d. by apply deque_append_lastn.
    + rewrite Hkey, <- (lastn_nil cap). by apply deque_append_lastn.
  - rewrite lookup_insert_ne by done. by rewrite app_nil_r.
Qed.

Lemma tracks_appends (cap : Z) (ops pre : list (string * Sample)) (s : Buffer) :
  0 ≤ cap → tracks cap pre s →
  ∃ s', appends ops s = (Ok tt, s') ∧ tracks cap (pre ++ ops) s'.
Proof.
  intros Hcap. revert pre s. induction ops as [|[k [ts v]] ops IH]; intros pre s Hs.
  - exists s. by rewrite app_nil_r.
  - destruct (tracks_append cap pre s k ts v Hcap Hs) as (s1 & Hrun & Hs1).
    destruct (IH _ _ Hs1) as (s2 & Hrun2 & Hs2).
    exists s2. split.
    + cbn [appends]. unfold bind. by rewrite Hrun.
    + by rewrite <- app_assoc in Hs2.
Qed.

(** [snapshot] returns, and hands the store back as it found it. *)
Lemma snapshot_from_run (keys : list string) (acc : gmap string (list Sample))
    (s : Buffer) :
  snapshot_from keys acc s =
    (Ok (foldl (fun acc key => <[key := items_of s key]> acc) acc keys), s).
Proof.
  revert acc. induction keys as [|key keys IH]; intros acc; [done |].
  cbn [snapshot_from foldl]. unfold bind at 1, _data_get, bind, get, ret.
  apply IH.
Qed.

Lemma foldl_insert_lookup (f : string → list Sample) (keys : list string)
    (acc : gmap string (list Sample)) (key : string) :
  foldl (fun acc key => <[key := f key]> acc) acc keys !! key =
    if decide (key ∈ keys) then Some (f key) else acc !! key.
Proof.
  revert acc. induction keys as [|k keys IH]; intros acc; cbn [foldl].
  - by rewrite decide_False by apply not_elem_of_nil.
  - rewrite IH. destruct (decide (key ∈ keys)) as [Hin|Hnin].
    + by rewrite decide_True by (by right).
    + destruct (decide (k = key)) as [->|Hne].
      * rewrite lookup_insert_eq. by rewrite decide_True by left.
      * rewrite lookup_insert_ne by done.
        rewrite decide_False; [done |]. rewrite elem_of_cons.
        intros [Heq|Hin]; [by subst | done].
Qed.

Lemma snapshot_run (keys : list string) (s : Buffer) :
  ∃ r, snapshot keys s = (Ok r, s) ∧
       ∀ key, r !! key = if decide (key ∈ keys) then Some (items_of s key) else None.
Proof.
  eexists. split; [apply snapshot_from_run |].
  intros key. by rewrite foldl_insert_lookup, lookup_empty.
Qed.

(** The defaultdict subscript, which [snapshot] does not use, would store an
    empty deque under a key it does not find. *)
Remark _data_getitem_stores (key : string) (s : Buffer) :
  0 ≤ maxlen s → _data s !! key = None →
  _data (_data_getitem key s).2 !! key = Some (mk_deque (maxlen s) []).
Proof.
  intros Hn Hk. unfold _data_getitem, bind, get, lift, put, ret, deque_new.
  rewrite Hk. destruct (Z.ltb_spec (maxlen s) 0); [lia |]. cbn.
  by rewrite lookup_insert_eq.
Qed.

(** C1. On a store built with a capacity that is not negative, after any run
    of [append] calls of which [capacity + k] (with [k >= 0]) went to [key],
    every call has succeeded and [snapshot([key])] maps [key] to the samples
    appended to it without the first [k], that is to the last [capacity] of
    them in the order they were appended; the store is not changed by the
    query. *)
Theorem snapshot_last_capacity (capacity k : Z) (key : string)
    (ops : list (string * Sample)) :
  0 ≤ capacity → 0 ≤ k →
  Z.of_nat (length (appended_to key ops)) = capacity + k →
  ∃ s, appends ops (__init__ capacity) = (Ok tt, s) ∧
       snapshot [key] s = (Ok {[key := drop (Z.to_nat k) (appended_to key ops)]}, s) ∧
       Z.of_nat (length (drop (Z.to_nat k) (appended_to key ops))) = capacity.
Proof.
  intros Hcap Hk Hlen.
  destruct (tracks_appends capacity ops [] _ Hcap (tracks_init capacity))
    as (s & Hrun & Hmax & Hinv).
  exists s. split; [done |]. split; [| rewrite length_drop; lia].
  unfold snapshot. rewrite snapshot_from_run. cbn [foldl]. do 2 f_equal.
  rewrite insert_empty. f_equal.
  unfold items_of. specialize (Hinv key). cbn [app] in Hinv.
  replace (Z.to_nat k) with (length (appended_to key ops) - Z.to_nat capacity)%nat by lia.
  destruct (_data s !! key) as [d|].
  - by subst d.
  - rewrite Hinv. by rewrite drop_nil.
Qed.

(** C5. Whatever calls were made before, [snapshot] raises nothing, and a
    requested key that no [append] call was made for is a key of the result,
    mapped to the empty list. *)
Theorem snapshot_unknown_key_empty (capacity : Z) (ops : list (string * Sample))
    (keys : list string) (key : string) :
  key ∈ keys → key ∉ ops.*1 →
  ∃ r, snapshot keys (appends ops (__init__ capacity)).2
         = (Ok r, (appends ops (__init__ capacity)).2) ∧
       r !! key = Some [].
Proof.
  intros Hin Hnot.
  destruct (snapshot_run keys (appends ops (__init__ capacity)).2) as (r & Hrun & Hr).
  exists r. split; [done |].
  rewrite Hr, decide_True by done. unfold items_of.
  rewrite appends_other by done. cbn. by rewrite lookup_empty.
Qed.

(** C9. [snapshot] hands the store back exactly as it found it, for every
    store and every list of keys, whether or not the keys have entries. *)
Theorem snapshot_store_unchanged (keys : list string) (s : Buffer) :
  (snapshot keys s).2 = s ∧
  ∀ key, _data (snapshot keys s).2 !! key = _data s !! key.
Proof.
  destruct (snapshot_run keys s) as (r & Hrun & _). rewrite Hrun. by split.
Qed.

End StoreFacts.

(** Capacity 3 and four samples appended to A.x: the first one is gone. *)
Lemma snapshot_last_capacity_witness :
  ∃ s : @DataBuffer.t Z Z,
    DataBuffer.appends
      [("A.x", (1, 10)); ("A.x", (2, 20)); ("A.x", (3, 30)); ("A.x", (4, 40))]
      (DataBuffer.__init__ 3) = (Ok tt, s) ∧
    DataBuffer.snapshot ["A.x"] s = (Ok {["A.x" := [(2, 20); (3, 30); (4, 40)]]}, s) ∧
    Z.of_nat (length [(2, 20); (3, 30); (4, 40)]) = 3.
Proof.
  apply (snapshot_last_capacity 3 1 "A.x"
           [("A.x", (1, 10)); ("A.x", (2, 20)); ("A.x", (3, 30)); ("A.x", (4, 40))]);
    [lia | lia | reflexivity].
Defined.

(** Only A.x has history: B.y is in the answer, with nothing in it. *)
Lemma snapshot_unknown_key_empty_witness :
  ∃ r : gmap string (list (Z * Z)),
    DataBuffer.snapshot ["A.x"; "B.y"]
      (DataBuffer.appends [("A.x", (1, 10))] (DataBuffer.__init__ 3)).2
      = (Ok r, (DataBuffer.appends [("A.x", (1, 10))] (DataBuffer.__init__ 3)).2) ∧
    r !! "B.y" = Some [].
Proof.
  apply (snapshot_unknown_key_empty 3 [("A.x", (1, 10))] ["A.x"; "B.y"] "B.y").
  - apply list_elem_of_In. cbn. tauto.
  - rewrite list_elem_of_In. cbn. intros [H|[]]. discriminate H.
Defined.

(** The scenario in full: the answer has both keys. *)
Example snapshot_two_keys :
  (DataBuffer.snapshot ["A.x"; "B.y"]
     (DataBuffer.appends [("A.x", (1, 10)); ("A.x", (2, 20))]
        (DataBuffer.__init__ (T:=Z) (V:=Z) 3)).2).1
  = Ok (<["B.y" := []]> {["A.x" := [(1, 10); (2, 20)]]}).
Proof. vm_compute. reflexivity. Qed.

(** ** The connection manager *)

Section ManagerFacts.
Context {C V : Type} `{!Client C} `{!Util V}.
Import PLCManager.

Abbreviation Manager := (@PLCManager.t C V).

Ltac run_manager :=
  unfold connect, call_connect, call_get_connected, call_db_read, on_client,
    set_connected, set_last_error, try_except, bind, get, put, modify, lift, ret;
  cbn.

(** [connect] on a manager whose flag is set does nothing. *)
Lemma connect_noop (m : Manager) : connected m = true → connect m = (Ok tt, m).
Proof. intros Hc. run_manager. by rewrite Hc. Qed.

(** [connect] on a manager whose flag is not set: one connection attempt, and
    the flag and the error are set together from its outcome. *)
Lemma connect_run (m : Manager) :
  connected m = false →
  connect m =
    match client_connect (ip m) (rack m) (slot m) (client m) with
    | (Ok _, c') =>
        (Ok tt,
         mk (name m) (ip m) (rack m) (slot m) (tags m) c'
            (if client_get_connected c' then None else Some "Unknown connection issue")
            (client_get_connected c')
            ((calls m ++ [CallConnect (ip m) (rack m) (slot m)]) ++ [CallGetConnected]))
    | (Raise e, c') =>
        (Ok tt,
         mk (name m) (ip m) (rack m) (slot m) (tags m) c'
            (Some ("Connection error: " +:+ e)) false
            (calls m ++ [CallConnect (ip m) (rack m) (slot m)]))
    end.
Proof.
  intros Hc. run_manager. rewrite Hc.
  destruct (client_connect (ip m) (rack m) (slot m) (client m)) as [[[]|e] c']; cbn.
  - done.
  - done.
Qed.

(** [_ensure_connection] spelled out: nothing but the session query when the
    flag is set and the session is alive, a call of [connect] otherwise. *)
Lemma _ensure_connection_run (m : Manager) :
  _ensure_connection m =
    if connected m then
      if client_get_connected (client m) then (Ok true, recorded CallGetConnected m)
      else (Ok (connected (connect (dropped (recorded CallGetConnected m))).2),
            (connect (dropped (recorded CallGetConnected m))).2)
    else (Ok (connected (connect (dropped m)).2), (connect (dropped m)).2).
Proof.
  unfold _ensure_connection, recorded, dropped. run_manager.
  destruct (connected m) eqn:Hc; cbn.
  - destruct (client_get_connected (client m)) eqn:Ha; cbn.
    + by rewrite Hc.
    + destruct (client_connect (ip m) (rack m) (slot m) (client m)) as [[[]|e] c']; done.
  - destruct (client_connect (ip m) (rack m) (slot m) (client m)) as [[[]|e] c']; done.
Qed.

Lemma _ensure_connection_alive (m : Manager) :
  connected m = true → client_get_connected (client m) = true →
  _ensure_connection m = (Ok true, recorded CallGetConnected m).
Proof. intros Hc Ha. by rewrite _ensure_connection_run, Hc, Ha. Qed.

(** C3. When [_ensure_connection] has returned true, the flag is set and the
    session reports alive, and a second call returns true again having made
    one call on the client, the session query: the manager it leaves is the
    one it found with that query recorded, so [client.connect] was not
    called and neither the session nor any field was touched. *)
Theorem _ensure_connection_idempotent (m m1 : Manager) :
  _ensure_connection m = (Ok true, m1) →
  connected m1 = true ∧ client_get_connected (client m1) = true ∧
  _ensure_connection m1 = (Ok true, recorded CallGetConnected m1) ∧
  calls (recorded CallGetConnected m1) = calls m1 ++ [CallGetConnected].
Proof.
  intros Hrun.
  assert (connected m1 = true ∧ client_get_connected (client m1) = true) as [Hc Ha].
  { rewrite _ensure_connection_run in Hrun.
    destruct (connected m) eqn:Hcm.
    - destruct (client_get_connected (client m)) eqn:Ham.
      + injection Hrun as <-. by split.
      + rewrite connect_run in Hrun by done. cbn in Hrun.
        destruct (client_connect (ip m) (rack m) (slot m) (client m)) as [[[]|e] c'];
          cbn in Hrun; injection Hrun as Hb <-; cbn; [by split | done].
    - rewrite connect_run in Hrun by done. cbn in Hrun.
      destruct (client_connect (ip m) (rack m) (slot m) (client m)) as [[[]|e] c'];
        cbn in Hrun; injection Hrun as Hb <-; cbn; [by split | done]. }
  repeat split; [done | done | by apply _ensure_connection_alive].
Qed.

Lemma read_tag_run (tag : Tag.t V) (values : gmap string V) (m : Manager) :
  read_tag tag values m =
    match fetch tag (client m) with
    | (Ok v, c') => (Ok (Continue (<[Tag.name tag := v]> values)), after_reads [tag] c' m)
    | (Raise e, c') => (Ok Break, after_failure tag e c' m)
    end.
Proof.
  unfold read_tag, fetch, after_reads, after_failure, db_read_call. run_manager.
  destruct (client_db_read _ _ _ (client m)) as [[raw|e] c']; cbn; [| done].
  by destruct (_parse_value tag raw).
Qed.

Lemma after_reads_nil (m : Manager) : after_reads [] (client m) m = m.
Proof. unfold after_reads. cbn. rewrite app_nil_r. by destruct m. Qed.

Lemma after_reads_cons (tag : Tag.t V) (rest : list (Tag.t V)) (c c' : C) (m : Manager) :
  after_reads rest c' (after_reads [tag] c m) = after_reads (tag :: rest) c' m.
Proof. unfold after_reads. cbn. by rewrite <- app_assoc. Qed.

(** While reads succeed the loop goes on, with the values stored. *)
Lemma read_loop_prefix (pre rest : list (Tag.t V)) (vs : list V) (c1 : C)
    (values : gmap string V) (m : Manager) :
  reads pre (client m) = (Ok vs, c1) →
  read_loop (pre ++ rest) values m =
    read_loop rest (values_from values pre vs) (after_reads pre c1 m).
Proof.
  revert vs values m. induction pre as [|tag pre IH]; intros vs values m Hr.
  - cbn in Hr. injection Hr as <- <-. cbn. by rewrite after_reads_nil.
  - cbn [reads] in Hr. unfold bind at 1 in Hr.
    cbn [app read_loop]. unfold bind at 1. rewrite read_tag_run.
    destruct (fetch tag (client m)) as [[v|e] c'] eqn:Hf; [| done].
    unfold bind at 1 in Hr.
    destruct (reads pre c') as [[vs'|e] c''] eqn:Hrs; [| done].
    injection Hr as <- <-.
    rewrite (IH vs' _ (after_reads [tag] c' m)) by done.
    by rewrite after_reads_cons.
Qed.

(** A failed read ends the loop with the values gathered so far. *)
Lemma read_loop_failure (tag : Tag.t V) (rest : list (Tag.t V)) (e : string) (c' : C)
    (values : gmap string V) (m : Manager) :
  fetch tag (client m) = (Raise e, c') →
  read_loop (tag :: rest) values m = (Ok values, after_failure tag e c' m).
Proof. intros Hf. cbn [read_loop]. unfold bind. by rewrite read_tag_run, Hf. Qed.

Lemma reads_length (tags : list (Tag.t V)) (vs : list V) (c c1 : C) :
  reads tags c = (Ok vs, c1) → length vs = length tags.
Proof.
  revert vs c. induction tags as [|tag tags IH]; intros vs c Hr.
  - cbn in Hr. by injection Hr as <- <-.
  - cbn [reads] in Hr. unfold bind at 1 in Hr.
    destruct (fetch tag c) as [[v|e] c']; [| done].
    unfold bind at 1 in Hr.
    destruct (reads tags c') as [[vs'|e] c''] eqn:Hrs; [| done].
    injection Hr as <- <-. cbn. f_equal. by eapply IH.
Qed.

(** [_ensure_connection] raises nothing and leaves the configuration of the
    manager alone. *)
Lemma _ensure_connection_returns (m : Manager) :
  ∃ b m0, _ensure_connection m = (Ok b, m0) ∧ tags m0 = tags m ∧ name m0 = name m.
Proof.
  rewrite _ensure_connection_run.
  destruct (connected m); [destruct (client_get_connected (client m)) |];
    try (by eexists _, _);
    (rewrite connect_run by done;
     destruct (client_connect _ _ _ _) as [[[]|e] c']; by eexists _, _).
Qed.

Lemma read_tags_run (m : Manager) :
  read_tags m =
    match _ensure_connection m with
    | (Ok true, m0) => read_loop (tags m0) ∅ m0
    | (Ok false, m0) => (Ok ∅, m0)
    | (Raise e, m0) => (Raise e, m0)
    end.
Proof.
  unfold read_tags. unfold bind at 1.
  destruct (_ensure_connection m) as [[[]|e] m0]; done.
Qed.

Lemma read_loop_returns (tags : list (Tag.t V)) (values : gmap string V) (m : Manager) :
  ∃ values' m', read_loop tags values m = (Ok values', m').
Proof.
  revert values m. induction tags as [|tag tags IH]; intros values m.
  - by eexists _, _.
  - cbn [read_loop]. unfold bind. rewrite read_tag_run.
    destruct (fetch tag (client m)) as [[v|e] c']; [apply IH | by eexists _, _].
Qed.

(** [read_tags] always returns a dict: whatever the client or a decoder
    raises is caught inside. *)
Lemma read_tags_returns (m : Manager) :
  ∃ values m', read_tags m = (Ok values, m').
Proof.
  rewrite read_tags_run.
  destruct (_ensure_connection_returns m) as (b & m0 & -> & _).
  destruct b; [apply read_loop_returns | by eexists _, _].
Qed.

(** The cycle in which the reads of [pre] succeed and the read of [tag]
    fails. *)
Lemma read_tags_stops_at (m m0 : Manager) (pre post : list (Tag.t V)) (tag : Tag.t V)
    (vs : list V) (c1 c2 : C) (e : string) :
  _ensure_connection m = (Ok true, m0) →
  tags m = pre ++ tag :: post →
  reads pre (client m0) = (Ok vs, c1) →
  fetch tag c1 = (Raise e, c2) →
  read_tags m = (Ok (values_from ∅ pre vs), after_failure tag e c2 (after_reads pre c1 m0)).
Proof.
  intros He Ht Hr Hf. rewrite read_tags_run, He.
  destruct (_ensure_connection_returns m) as (b & m0' & He' & Htags & _).
  rewrite He in He'. injection He' as <- <-.
  rewrite Htags, Ht, (read_loop_prefix pre _ vs c1) by done.
  by apply read_loop_failure.
Qed.

(** C2. [read_tags] returns the values of a prefix of [self.tags], taken in
    order. If [_ensure_connection] fails the dict is empty. If the reads of
    the tags [pre] succeed and the read or the decoding of the next tag
    fails, the dict holds the values of [pre] and nothing else, the error is
    recorded under the name of that tag, the flag is taken down, and the
    calls made on the client end with the read of that tag: the tags after
    it are not read. If no read fails the dict holds the values of all the
    tags. *)
Theorem read_tags_fail_fast (m : Manager) :
  (∀ m0, _ensure_connection m = (Ok false, m0) → read_tags m = (Ok ∅, m0)) ∧
  (∀ m0 pre tag post vs c1 c2 e,
     _ensure_connection m = (Ok true, m0) →
     tags m = pre ++ tag :: post →
     reads pre (client m0) = (Ok vs, c1) →
     fetch tag c1 = (Raise e, c2) →
     length vs = length pre ∧
     read_tags m =
       (Ok (values_from ∅ pre vs), after_failure tag e c2 (after_reads pre c1 m0)) ∧
     connected (after_failure tag e c2 (after_reads pre c1 m0)) = false ∧
     last_error (after_failure tag e c2 (after_reads pre c1 m0))
       = Some ("Read error for " +:+ Tag.name tag +:+ ": " +:+ e) ∧
     calls (after_failure tag e c2 (after_reads pre c1 m0))
       = calls m0 ++ (db_read_call <$> (pre ++ [tag]))) ∧
  (∀ m0 vs c1,
     _ensure_connection m = (Ok true, m0) →
     reads (tags m) (client m0) = (Ok vs, c1) →
     read_tags m = (Ok (values_from ∅ (tags m) vs), after_reads (tags m) c1 m0)).
Proof.
  split; [| split].
  - intros m0 He. by rewrite read_tags_run, He.
  - intros m0 pre tag post vs c1 c2 e He Ht Hr Hf.
    split; [by eapply reads_length |].
    split; [by eapply read_tags_stops_at |].
    repeat split. cbn. by rewrite fmap_app, app_assoc.
  - intros m0 vs c1 He Hr. rewrite read_tags_run, He.
    destruct (_ensure_connection_returns m) as (b & m0' & He' & Htags & _).
    rewrite He in He'. injection He' as <- <-. rewrite Htags.
    rewrite <- (app_nil_r (tags m)) at 1.
    by rewrite (read_loop_prefix (tags m) [] vs c1).
Qed.

Lemma _parse_value_unsupported (tag : Tag.t V) (raw : bytes) :
  Tag.parse tag = None → supported (Tag.data_type tag) = false →
  _parse_value tag raw = Raise ("Unsupported data type: " +:+ Tag.data_type tag).
Proof.
  unfold _parse_value, supported. intros -> Hs.
  repeat (apply orb_false_elim in Hs as [Hs ?]).
  cbn zeta. by repeat match goal with H : String.eqb _ _ = false |- _ => rewrite H; clear H end.
Qed.

(** C7, as the code has it. A tag of a type that [_parse_value] does not know
    never makes [read_tags] raise: the [ValueError] is caught like any failed
    read. When the tags [pre] were read with success and the block of such a
    tag is read, the cycle ends there: the dict holds the values of [pre]
    only, the flag is taken down and the error names the tag and its type. *)
Theorem unsupported_type_ends_cycle (m m0 : Manager) (pre post : list (Tag.t V))
    (tag : Tag.t V) (vs : list V) (c1 c2 : C) (raw : bytes) :
  _ensure_connection m = (Ok true, m0) →
  tags m = pre ++ tag :: post →
  reads pre (client m0) = (Ok vs, c1) →
  Tag.parse tag = None → supported (Tag.data_type tag) = false →
  client_db_read (Tag.db_number tag) (Tag.start tag) (Tag.size tag) c1 = (Ok raw, c2) →
  (∀ m', ∃ values m'', read_tags m' = (Ok values, m'')) ∧
  read_tags m =
    (Ok (values_from ∅ pre vs),
     mk (name m0) (ip m0) (rack m0) (slot m0) (tags m0) c2
        (Some ("Read error for " +:+ Tag.name tag +:+ ": "
               +:+ "Unsupported data type: " +:+ Tag.data_type tag))
        false
        (calls m0 ++ (db_read_call <$> (pre ++ [tag])))).
Proof.
  intros He Ht Hr Hp Hs Hd. split; [apply read_tags_returns |].
  rewrite (read_tags_stops_at m m0 pre post tag vs c1 c2
             ("Unsupported data type: " +:+ Tag.data_type tag)); try done.
  - unfold after_failure, after_reads. cbn. by rewrite fmap_app, app_assoc.
  - unfold fetch, bind, lift. by rewrite Hd, _parse_value_unsupported.
Qed.

Lemma connect_consistent (m : Manager) : consistent m → consistent (connect m).2.
Proof.
  intros Hm. destruct (connected m) eqn:Hc.
  - by rewrite connect_noop.
  - rewrite connect_run by done.
    destruct (client_connect _ _ _ _) as [[[]|e] c']; unfold consistent; cbn; [| done].
    by intros ->.
Qed.

Lemma _ensure_connection_consistent (m : Manager) :
  consistent m → consistent (_ensure_connection m).2.
Proof.
  intros Hm. rewrite _ensure_connection_run.
  destruct (connected m) eqn:Hc; [destruct (client_get_connected (client m)) |]; cbn [snd].
  - unfold consistent, recorded. cbn. intros _. by apply Hm.
  - by apply connect_consistent.
  - by apply connect_consistent.
Qed.

Lemma read_loop_consistent (tags : list (Tag.t V)) (values : gmap string V) (m : Manager) :
  consistent m → consistent (read_loop tags values m).2.
Proof.
  revert values m. induction tags as [|tag tags IH]; intros values m Hm; [done |].
  cbn [read_loop]. unfold bind. rewrite read_tag_run.
  destruct (fetch tag (client m)) as [[v|e] c'].
  - apply IH. unfold consistent, after_reads. cbn. apply Hm.
  - done.
Qed.

Lemma read_tags_consistent (m : Manager) : consistent m → consistent (read_tags m).2.
Proof.
  intros Hm. rewrite read_tags_run.
  pose proof (_ensure_connection_consistent m Hm) as H0.
  destruct (_ensure_connection m) as [[[]|e] m0]; cbn [snd] in *; [| done | done].
  by apply read_loop_consistent.
Qed.

(** C10, between calls. In every manager that the constructor and the
    completed calls of [connect], [_ensure_connection] and [read_tags] can
    produce, in any order and whatever happens to the session in between, a
    set flag goes with no recorded error, and a recorded error goes with a
    flag that is not set: for a manager none of whose methods is running, the
    branch of the status loop for a connected device is never taken while it
    holds an error. *)
Theorem connected_without_error (m : Manager) :
  reachable m →
  (connected m = true → last_error m = None) ∧
  (∀ e, last_error m = Some e → connected m = false).
Proof.
  intros Hr.
  assert (consistent m) as Hm.
  { induction Hr as [| m _ IH | m _ IH | m _ IH | m c _ IH].
    - done.
    - by apply connect_consistent.
    - by apply _ensure_connection_consistent.
    - by apply read_tags_consistent.
    - exact IH. }
  split; [exact Hm |].
  intros e He. destruct (connected m) eqn:Hc; [| done].
  rewrite (Hm Hc) in He. done.
Qed.

End ManagerFacts.

(** ** The routes *)

Section RoutesFacts.
Context {C T V : Type}.
Import Routes.

Abbreviation Device := (@PLCManager.t C V).

Lemma status_loop_app (managers : list Device) (status_parts : list string) :
  status_loop managers status_parts = status_parts ++ (status_part <$> managers).
Proof.
  revert status_parts. induction managers as [|m managers IH]; intros status_parts; cbn.
  - by rewrite app_nil_r.
  - by rewrite IH, <- app_assoc.
Qed.

Lemma data_run (args : gmap string string) (managers : list Device)
    (buffer : @DataBuffer.t T V) :
  ∃ series,
    DataBuffer.snapshot
      (List.filter truthy (split "," (default "" (args !! "signals")))) buffer
      = (Ok series, buffer) ∧
    data args managers buffer
      = (Ok (mk_response series (join " | " (status_part <$> managers))), buffer).
Proof.
  destruct (snapshot_run
              (List.filter truthy (split "," (default "" (args !! "signals")))) buffer)
    as (series & Hrun & _).
  exists series. split; [done |].
  unfold data, bind. rewrite Hrun. unfold ret. by rewrite status_loop_app.
Qed.

(** C4, with the words of the code. The status string of [data] is the parts
    of the managers, in the order of the list, joined by [" | "]; the part of
    a manager is its name followed by [": verbunden"] when its flag is set,
    else by [": "] and its error when it holds one that is not the empty
    string, else by [": nicht verbunden"]. *)
Theorem status_summary_in_order (args : gmap string string) (managers : list Device)
    (buffer : @DataBuffer.t T V) :
  (∃ series,
     data args managers buffer
       = (Ok (mk_response series (join " | " (status_part <$> managers))), buffer)) ∧
  ∀ m : Device,
    (PLCManager.connected m = true →
       status_part m = PLCManager.name m +:+ ": verbunden") ∧
    (∀ e, PLCManager.connected m = false → PLCManager.last_error m = Some e → e ≠ "" →
       status_part m = PLCManager.name m +:+ ": " +:+ e) ∧
    (PLCManager.connected m = false →
     PLCManager.last_error m = None ∨ PLCManager.last_error m = Some "" →
       status_part m = PLCManager.name m +:+ ": nicht verbunden").
Proof.
  split.
  - destruct (data_run args managers buffer) as (series & _ & Hd). by exists series.
  - intros m. unfold status_part. repeat split.
    + by intros ->.
    + intros e -> -> He. by destruct e.
    + intros -> [-> | ->]; done.
Qed.

(** C8. Without a [signals] argument, or with an empty one, [data] raises
    nothing and hands to [jsonify] a series dict with no key at all, not even
    the empty string, next to the status string it builds for any request:
    the parts of the managers in the order of the list, joined by [" | "],
    the part of a manager being its name followed by [": verbunden"] when its
    flag is set, else by [": "] and its error when it holds one that is not
    the empty string, else by [": nicht verbunden"]. The buffer is left as
    it was. *)
Theorem data_without_signals (args : gmap string string) (managers : list Device)
    (buffer : @DataBuffer.t T V) :
  args !! "signals" = None ∨ args !! "signals" = Some "" →
  data args managers buffer
    = (Ok (mk_response ∅
             (join " | "
                ((fun m : Device =>
                    PLCManager.name m +:+
                      (if PLCManager.connected m then ": verbunden"
                       else match PLCManager.last_error m with
                            | Some (String a e) => ": " +:+ String a e
                            | _ => ": nicht verbunden"
                            end))
                   <$> managers))),
       buffer).
Proof.
  intros Hargs.
  assert (data args managers buffer
            = (Ok (mk_response ∅ (join " | " (status_part <$> managers))), buffer)) as ->.
  { unfold data. destruct Hargs as [-> | ->]; cbn; unfold bind, ret; cbn;
      by rewrite status_loop_app. }
  do 4 f_equal. apply list_fmap_ext. intros _ m _. unfold status_part.
  destruct (PLCManager.connected m); [done |].
  by destruct (PLCManager.last_error m) as [[|a e]|].
Qed.

(** [jsonify] returns on a dict whose series are empty, whatever the encoder
    can serialise. *)
Remark jsonify_of_empty_series (serialisable : V → bool) (status : string) :
  jsonify_returns (T:=T) serialisable (mk_response ∅ status) = true.
Proof. unfold jsonify_returns. cbn. by rewrite map_to_list_empty. Qed.

Lemma dict_get_set_eq {A} (k : string) (v : A) (d : list (string * A)) :
  dict_get k (dict_set k v d) = Some v.
Proof.
  induction d as [|[k' v'] d IH]; cbn.
  - by rewrite String.eqb_refl.
  - destruct (String.eqb k' k) eqn:Hk; cbn.
    + by rewrite String.eqb_refl.
    + by rewrite Hk.
Qed.

Lemma dict_get_set_ne {A} (k k0 : string) (v : A) (d : list (string * A)) :
  k ≠ k0 → dict_get k0 (dict_set k v d) = dict_get k0 d.
Proof.
  intros Hne. induction d as [|[k' v'] d IH]; cbn.
  - by rewrite (proj2 (String.eqb_neq k k0)).
  - destruct (String.eqb k' k) eqn:Hk; cbn.
    + apply String.eqb_eq in Hk as ->.
      by rewrite (proj2 (String.eqb_neq k k0)).
    + by rewrite IH.
Qed.

(** The flag that the comprehension leaves under a name is the one of the
    last manager of that name. *)
Lemma plcs_from_lookup (managers : list Device) (acc : list (string * pyobj))
    (n : string) :
  dict_get n (plcs_from managers acc) =
    match last (filter (fun m => PLCManager.name m = n) managers) with
    | Some m => Some (PBool (PLCManager.connected m))
    | None => dict_get n acc
    end.
Proof.
  revert acc. induction managers as [|m managers IH]; intros acc; [done |].
  cbn [plcs_from]. rewrite IH, filter_cons.
  destruct (decide (PLCManager.name m = n)) as [<-|Hne].
  - rewrite last_cons.
    destruct (last (filter _ managers)); [done |].
    by rewrite dict_get_set_eq.
  - destruct (last (filter _ managers)); [done |].
    by apply dict_get_set_ne.
Qed.

(** C6, with the key of the code. [health] returns a dict with the two keys
    [status], holding the string ok, and [plcs], holding a dict in which a
    name is a key exactly when a manager has it, with the flag of the last
    manager of that name as its value. *)
Theorem health_shape (managers : list Device) :
  ∃ flags,
    health managers = PDict [("status", PStr "ok"); ("plcs", PDict flags)] ∧
    ∀ n, dict_get n flags =
           (fun m => PBool (PLCManager.connected m))
             <$> last (filter (fun m => PLCManager.name m = n) managers).
Proof.
  eexists. split; [reflexivity |].
  intros n. rewrite plcs_from_lookup. by destruct (last _).
Qed.

End RoutesFacts.

(** ** The code on the small client *)

(** Of five signals the third fails: the values of the first two, the flag
    down, and no call on the client after the failed read. *)
Lemma read_tags_fail_fast_witness :
  (PLCManager.read_tags five_signals).1 = Ok (<["s2" := 4]> (<["s1" := 0]> ∅)) ∧
  PLCManager.connected (PLCManager.read_tags five_signals).2 = false ∧
  PLCManager.last_error (PLCManager.read_tags five_signals).2
    = Some "Read error for s3: timeout" ∧
  PLCManager.calls (PLCManager.read_tags five_signals).2
    = [CallConnect "192.168.0.10" 0 1; CallGetConnected;
       CallDbRead 1 0 4; CallDbRead 1 4 4; CallDbRead 9 0 4].
Proof.
  assert (PLCManager._ensure_connection five_signals
            = (Ok true, (PLCManager._ensure_connection five_signals).2)) as H1
    by (vm_compute; reflexivity).
  assert (PLCManager.tags five_signals
            = [demo_tag "s1" 1 0 "real"; demo_tag "s2" 1 4 "real"]
              ++ demo_tag "s3" 9 0 "real"
              :: [demo_tag "s4" 2 0 "real"; demo_tag "s5" 2 4 "real"]) as H2
    by reflexivity.
  assert (reads [demo_tag "s1" 1 0 "real"; demo_tag "s2" 1 4 "real"]
            (PLCManager.client (PLCManager._ensure_connection five_signals).2)
            = (Ok [0; 4], true)) as H3
    by (vm_compute; reflexivity).
  assert (fetch (demo_tag "s3" 9 0 "real") true = (Raise "timeout", true)) as H4
    by (vm_compute; reflexivity).
  destruct (proj1 (proj2 (read_tags_fail_fast five_signals)) _ _ _ _ _ _ _ _ H1 H2 H3 H4)
    as (_ & Hrun & Hc & He & Hcalls).
  rewrite Hrun. repeat split.
Defined.

(** A first call that connects, then a second one that only asks the
    session. *)
Lemma _ensure_connection_idempotent_witness :
  PLCManager.connected (PLCManager._ensure_connection five_signals).2 = true ∧
  PLCManager._ensure_connection (PLCManager._ensure_connection five_signals).2
    = (Ok true, recorded CallGetConnected (PLCManager._ensure_connection five_signals).2) ∧
  PLCManager.calls
    (PLCManager._ensure_connection (PLCManager._ensure_connection five_signals).2).2
    = [CallConnect "192.168.0.10" 0 1; CallGetConnected; CallGetConnected].
Proof.
  assert (PLCManager._ensure_connection five_signals
            = (Ok true, (PLCManager._ensure_connection five_signals).2)) as H1
    by (vm_compute; reflexivity).
  destruct (_ensure_connection_idempotent five_signals _ H1) as (Hc & _ & Hrun & _).
  split; [exact Hc |]. split; [exact Hrun |]. rewrite Hrun. reflexivity.
Defined.

(** C7, as the claim has it, fails: with a second tag of type string the
    cycle neither goes on to the third tag, whose block can be read and whose
    type is known, nor leaves the flag set. *)
Lemma unsupported_type_not_local :
  ¬ ∃ values m',
      PLCManager.read_tags odd_type_signals = (Ok values, m') ∧
      (PLCManager.connected m' = true ∨ is_Some (values !! "c")).
Proof.
  intros (values & m' & Hrun & Hclaim).
  assert (PLCManager.read_tags odd_type_signals
            = (Ok (<["a" := 0]> ∅), (PLCManager.read_tags odd_type_signals).2)) as Hcode
    by (vm_compute; reflexivity).
  assert (PLCManager.connected (PLCManager.read_tags odd_type_signals).2 = false) as Hflag
    by (vm_compute; reflexivity).
  rewrite Hrun in Hcode, Hflag. injection Hcode as ->. cbn [snd] in Hflag.
  destruct Hclaim as [Hc | Hv].
  - congruence.
  - rewrite lookup_insert_ne, lookup_empty in Hv by done. by destruct Hv.
Qed.

Lemma unsupported_type_ends_cycle_witness :
  (∀ m' : @PLCManager.t bool Z,
     ∃ values m'', PLCManager.read_tags m' = (Ok values, m'')) ∧
  PLCManager.read_tags odd_type_signals =
    (Ok (<["a" := 0]> ∅),
     PLCManager.mk "dev" "192.168.0.10" 0 1 (PLCManager.tags odd_type_signals) true
       (Some "Read error for b: Unsupported data type: string") false
       [CallConnect "192.168.0.10" 0 1; CallGetConnected;
        CallDbRead 1 0 4; CallDbRead 1 4 4]).
Proof.
  assert (PLCManager._ensure_connection odd_type_signals
            = (Ok true, (PLCManager._ensure_connection odd_type_signals).2)) as H1
    by (vm_compute; reflexivity).
  assert (PLCManager.tags odd_type_signals
            = [demo_tag "a" 1 0 "real"] ++ demo_tag "b" 1 4 "string"
              :: [demo_tag "c" 1 8 "REAL"]) as H2
    by reflexivity.
  assert (reads [demo_tag "a" 1 0 "real"]
            (PLCManager.client (PLCManager._ensure_connection odd_type_signals).2)
            = (Ok [0], true)) as H3
    by (vm_compute; reflexivity).
  assert (Tag.parse (demo_tag "b" 1 4 "string") = None) as H4 by reflexivity.
  assert (supported (Tag.data_type (demo_tag "b" 1 4 "string")) = false) as H5
    by (vm_compute; reflexivity).
  assert (client_db_read 1 4 4 true = (Ok [Byte.x04], true)) as H6
    by (vm_compute; reflexivity).
  exact (unsupported_type_ends_cycle odd_type_signals _ _ _ _ _ _ _ _ H1 H2 H3 H4 H5 H6).
Defined.

(** After a cycle that ended on a failed read. *)
Lemma connected_without_error_witness :
  (PLCManager.connected (PLCManager.read_tags five_signals).2 = true →
   PLCManager.last_error (PLCManager.read_tags five_signals).2 = None) ∧
  (∀ e, PLCManager.last_error (PLCManager.read_tags five_signals).2 = Some e →
        PLCManager.connected (PLCManager.read_tags five_signals).2 = false).
Proof.
  apply (connected_without_error (PLCManager.read_tags five_signals).2).
  apply reach_read_tags. apply reach_init.
Defined.

(** C4, as the claim has it, fails: the words are not the English ones. *)
Lemma status_summary_not_english :
  (Routes.data (T:=Z) ∅ two_devices (DataBuffer.__init__ 500)).1
    ≠ Ok (Routes.mk_response ∅ "dev1: connected | dev2: timeout").
Proof. cbv [Routes.data]. cbn. intros H. injection H as H. discriminate H. Qed.

(** The two devices under the words of the code. *)
Lemma status_summary_in_order_witness :
  ∃ series,
    Routes.data (T:=Z) ∅ two_devices (DataBuffer.__init__ 500)
      = (Ok (Routes.mk_response series "dev1: verbunden | dev2: timeout"),
         DataBuffer.__init__ 500).
Proof.
  exact (proj1 (status_summary_in_order ∅ two_devices (DataBuffer.__init__ 500))).
Defined.

Example status_summary_two_devices :
  (Routes.data (T:=Z) ∅ two_devices (DataBuffer.__init__ 500)).1
    = Ok (Routes.mk_response ∅ "dev1: verbunden | dev2: timeout").
Proof. reflexivity. Qed.

(** C6, as the claim has it, fails: the flags are not under the key devices. *)
Lemma health_key_not_devices :
  Routes.health two_devices
    ≠ PDict [("status", PStr "ok");
             ("devices", PDict [("dev1", PBool true); ("dev2", PBool false)])].
Proof. cbn. intros H. discriminate H. Qed.

Example health_two_devices :
  Routes.health two_devices
    = PDict [("status", PStr "ok");
             ("plcs", PDict [("dev1", PBool true); ("dev2", PBool false)])].
Proof. reflexivity. Qed.

(** No [signals] argument at all, and the two devices. *)
Lemma data_without_signals_witness :
  Routes.data (T:=Z) ∅ two_devices (DataBuffer.__init__ 500)
    = (Ok (Routes.mk_response ∅ "dev1: verbunden | dev2: timeout"),
       DataBuffer.__init__ 500).
Proof.
  apply (data_without_signals ∅ two_devices (DataBuffer.__init__ 500)).
  left. reflexivity.
Defined.

(** A store built with a negative bound: the first [append] raises when the
    factory builds the deque, and [snapshot] still answers. *)
Example append_negative_maxlen :
  (DataBuffer.append "A.x" 1 10 (DataBuffer.__init__ (T:=Z) (V:=Z) (-1))).1
    = Raise "maxlen must be non-negative".
Proof. reflexivity. Qed.

(** * Further properties *)

(** ** More on the bounded store *)

Section StoreMore.
Context {T V : Type}.
Import DataBuffer.

Abbreviation Sample := (@DataBuffer.Sample T V).
Abbreviation Buffer := (@DataBuffer.t T V).

Lemma items_of_tracks (cap : Z) (ops : list (string * Sample)) (s : Buffer) (key : string) :
  tracks cap ops s → items_of s key = lastn cap (appended_to key ops).
Proof.
  intros [_ Hinv]. specialize (Hinv key). unfold items_of.
  destruct (_data s !! key) as [d|].
  - by subst d.
  - by rewrite Hinv, lastn_nil.
Qed.

Lemma appends_from_init (cap : Z) (ops : list (string * Sample)) :
  0 ≤ cap →
  ∃ s, appends ops (__init__ cap) = (Ok tt, s) ∧ tracks cap ops s.
Proof.
  intros Hcap.
  destruct (tracks_appends cap ops [] _ Hcap (tracks_init cap)) as (s & Hrun & Hs).
  by exists s.
Qed.

(** X1. On a store built with a bound that is not negative and fits a
    [Py_ssize_t], no run of [append] calls ever leaves more samples under a
    key than the bound. *)
Theorem history_never_exceeds_bound (cap : Z) (ops : list (string * Sample))
    (key : string) :
  0 ≤ cap ≤ ssize_t_max →
  ∃ s, appends ops (__init__ cap) = (Ok tt, s) ∧
       Z.of_nat (length (items_of s key)) ≤ cap.
Proof.
  intros [Hcap _]. destruct (appends_from_init cap ops Hcap) as (s & Hrun & Hs).
  exists s. split; [done |].
  rewrite (items_of_tracks cap ops s key Hs). unfold lastn. rewrite length_drop. lia.
Qed.

(** X2. On a store built with a bound that is not negative and fits a
    [Py_ssize_t], as long as no more samples than the bound were appended to
    a key, none is lost: the history of the key is all of them, in call
    order. *)
Theorem history_below_bound_complete (cap : Z) (ops : list (string * Sample))
    (key : string) :
  0 ≤ cap ≤ ssize_t_max → Z.of_nat (length (appended_to key ops)) ≤ cap →
  ∃ s, appends ops (__init__ cap) = (Ok tt, s) ∧
       snapshot [key] s = (Ok {[key := appended_to key ops]}, s).
Proof.
  intros [Hcap _] Hlen. destruct (appends_from_init cap ops Hcap) as (s & Hrun & Hs).
  exists s. split; [done |].
  unfold snapshot. rewrite snapshot_from_run. cbn [foldl]. rewrite insert_empty.
  rewrite (items_of_tracks cap ops s key Hs). unfold lastn.
  replace (length (appended_to key ops) - Z.to_nat cap)%nat with 0%nat by lia.
  by rewrite drop_0.
Qed.

(** X3. With a positive bound that fits a [Py_ssize_t] the sample appended
    last to a key is the last one of its history, whatever was appended
    before. *)
Theorem newest_sample_is_last (cap : Z) (ops : list (string * Sample))
    (key : string) (ts : T) (v : V) :
  0 < cap ≤ ssize_t_max →
  ∃ s, appends (ops ++ [(key, (ts, v))]) (__init__ cap) = (Ok tt, s) ∧
       last (items_of s key) = Some (ts, v).
Proof.
  intros [Hcap _].
  destruct (appends_from_init cap (ops ++ [(key, (ts, v))])) as (s & Hrun & Hs); [lia |].
  exists s. split; [done |].
  rewrite (items_of_tracks cap _ s key Hs), appended_to_snoc, decide_True by done.
  unfold lastn. rewrite length_app. cbn [length].
  rewrite drop_app_le by lia. by rewrite last_snoc.
Qed.

(** An [append] that needs a new deque on a store with a negative bound
    raises, and stores nothing. *)
Lemma append_negative_bound (key : string) (ts : T) (v : V) (s : Buffer) :
  maxlen s < 0 → _data s !! key = None →
  append key ts v s = (Raise "maxlen must be non-negative", s).
Proof.
  intros Hn Hk. unfold append, _data_getitem, bind, get, lift, deque_new.
  rewrite Hk. by destruct (Z.ltb_spec (maxlen s) 0); [| lia].
Qed.

(** X4. On a store built with a negative bound that fits a [Py_ssize_t] the
    first [append] of any run raises the [ValueError] of the deque
    constructor, and the store stays empty. *)
Theorem negative_bound_append_raises (n : Z) (ops : list (string * Sample)) :
  ssize_t_min ≤ n < 0 → ops ≠ [] →
  appends ops (__init__ n) = (Raise "maxlen must be non-negative", __init__ n).
Proof.
  intros [_ Hn] Hops. destruct ops as [|[key [ts v]] ops]; [done |].
  cbn [appends]. unfold bind.
  by rewrite append_negative_bound.
Qed.

(** X5. [append] never touches the history of another key, whether it
    succeeds or raises. *)
Theorem append_leaves_other_keys (key key' : string) (ts : T) (v : V) (s : Buffer) :
  key ≠ key' → items_of (append key ts v s).2 key' = items_of s key'.
Proof. intros Hne. unfold items_of. by rewrite append_other. Qed.

(** X6. The keys of the dict that [snapshot] returns are the requested keys,
    each once however often it was requested, and each holds what the store
    has for it. *)
Theorem snapshot_keys_are_requested (keys : list string) (s : Buffer) :
  ∃ r, snapshot keys s = (Ok r, s) ∧
       dom r = list_to_set keys ∧
       ∀ key, key ∈ keys → r !! key = Some (items_of s key).
Proof.
  destruct (snapshot_run keys s) as (r & Hrun & Hr).
  exists r. split; [done |]. split.
  - apply set_eq. intros key. rewrite elem_of_dom, elem_of_list_to_set, Hr.
    destruct (decide (key ∈ keys)); [by split | split; [by intros [] | done]].
  - intros key Hin. by rewrite Hr, decide_True.
Qed.

End StoreMore.

(** ** More on the connection manager *)

Section ManagerMore.
Context {C V : Type} `{!Client C} `{!Util V}.
Import PLCManager.

Abbreviation Manager := (@PLCManager.t C V).

Lemma connect_attempts_app (l1 l2 : list ClientCall) :
  connect_attempts (l1 ++ l2) = (connect_attempts l1 + connect_attempts l2)%nat.
Proof. unfold connect_attempts. by rewrite List.filter_app, length_app. Qed.

(** X7. [connect] on a manager whose flag is not set raises nothing, calls
    [client.connect] exactly once, and leaves the flag set exactly when it
    leaves no error recorded. *)
Theorem connect_outcome (m : Manager) :
  connected m = false →
  ∃ m', connect m = (Ok tt, m') ∧
        (connected m' = true ↔ last_error m' = None) ∧
        connect_attempts (calls m') = S (connect_attempts (calls m)).
Proof.
  intros Hc. rewrite connect_run by done.
  destruct (client_connect (ip m) (rack m) (slot m) (client m)) as [[[]|e] c'].
  - eexists. split; [done |]. cbn [connected last_error calls]. split.
    + by destruct (client_get_connected c').
    + rewrite !connect_attempts_app. cbn. lia.
  - eexists. split; [done |]. cbn [connected last_error calls]. split.
    + done.
    + rewrite connect_attempts_app. cbn. lia.
Qed.

(** X8. A call of [_ensure_connection] that returns has made one connection
    attempt, except on a manager whose flag was set and whose session
    reported alive, where it has made none: there is no back-off and no
    attempt limit. *)
Theorem _ensure_connection_attempts (m m' : Manager) (b : bool) :
  _ensure_connection m = (Ok b, m') →
  connect_attempts (calls m') =
    (connect_attempts (calls m)
     + if connected m && client_get_connected (client m) then 0 else 1)%nat.
Proof.
  intros Hrun. apply (f_equal snd) in Hrun. cbn [snd] in Hrun. subst m'.
  rewrite _ensure_connection_run.
  destruct (connected m) eqn:Hc; [destruct (client_get_connected (client m)) eqn:Ha |];
    cbn [andb snd].
  - unfold recorded. cbn [calls]. rewrite connect_attempts_app. cbn. lia.
  - rewrite connect_run by done.
    destruct (client_connect _ _ _ _) as [[[]|e] c'];
      cbn [snd calls dropped recorded]; rewrite !connect_attempts_app; cbn; lia.
  - rewrite connect_run by done.
    destruct (client_connect _ _ _ _) as [[[]|e] c'];
      cbn [snd calls dropped]; rewrite !connect_attempts_app; cbn; lia.
Qed.

(** X9. What [_ensure_connection] returns is the flag it leaves, and when it
    returns false an error that is not the empty string is recorded, which
    is what the status line of the device then shows. *)
Theorem _ensure_connection_failure_recorded (m m' : Manager) (b : bool) :
  _ensure_connection m = (Ok b, m') →
  connected m' = b ∧
  (b = false →
   ∃ e, last_error m' = Some e ∧ e ≠ "" ∧
        Routes.status_part m' = name m +:+ ": " +:+ e).
Proof.
  intros Hrun.
  assert (∀ m0 : Manager, connected m0 = false →
            connected (connect m0).2 = false →
            ∃ e, last_error (connect m0).2 = Some e ∧ e ≠ "" ∧
                 Routes.status_part (connect m0).2 = name m0 +:+ ": " +:+ e) as Hfail.
  { intros m0 Hc0. rewrite connect_run by done.
    destruct (client_connect (ip m0) (rack m0) (slot m0) (client m0)) as [[[]|e] c'];
      cbn [snd connected last_error].
    - intros ->. by eexists.
    - intros _. by eexists. }
  rewrite _ensure_connection_run in Hrun.
  destruct (connected m) eqn:Hc; [destruct (client_get_connected (client m)) eqn:Ha |].
  - injection Hrun as <- <-. by split.
  - injection Hrun as <- <-. split; [done |]. intros Hb.
    by apply (Hfail (dropped (recorded CallGetConnected m))).
  - injection Hrun as <- <-. split; [done |]. intros Hb.
    by apply (Hfail (dropped m)).
Qed.

(** What a run of the read loop does to the dict and to the flag. *)
Lemma read_loop_keys (tags : list (Tag.t V)) (values values' : gmap string V)
    (m m' : Manager) :
  read_loop tags values m = (Ok values', m') →
  (∀ k, is_Some (values !! k) → is_Some (values' !! k)) ∧
  (∀ k, is_Some (values' !! k) →
        is_Some (values !! k) ∨ ∃ tag, tag ∈ tags ∧ Tag.name tag = k) ∧
  (connected m' = true → ∀ tag, tag ∈ tags → is_Some (values' !! Tag.name tag)).
Proof.
  revert values m. induction tags as [|tag tags IH]; intros values m Hrun.
  - cbn in Hrun. injection Hrun as <- <-. repeat split; [done | by left |].
    intros _ tag Hin. by apply elem_of_nil in Hin.
  - cbn [read_loop] in Hrun. unfold bind in Hrun. rewrite read_tag_run in Hrun.
    destruct (fetch tag (client m)) as [[v|e] c'].
    + destruct (IH _ _ Hrun) as (Hkeep & Hfrom & Hall). repeat split.
      * intros k Hk. apply Hkeep.
        destruct (decide (Tag.name tag = k)) as [<-|Hne].
        -- by rewrite lookup_insert_eq.
        -- by rewrite lookup_insert_ne.
      * intros k Hk. destruct (Hfrom k Hk) as [Hin | (tag' & Hin & Hname)].
        -- destruct (decide (Tag.name tag = k)) as [<-|Hne].
           ++ right. exists tag. split; [left | done].
           ++ left. by rewrite lookup_insert_ne in Hin.
        -- right. exists tag'. split; [by right | done].
      * intros Hc tag' Hin. apply elem_of_cons in Hin as [-> | Hin].
        -- apply Hkeep. by rewrite lookup_insert_eq.
        -- by apply Hall.
    + injection Hrun as <- <-. repeat split; [done | by left | done].
Qed.

(** X10. When [read_tags] leaves the flag set, the dict it returns has a
    value for every configured tag: a dict that misses a tag always comes
    with a manager whose flag is down. *)
Theorem read_tags_complete_or_disconnected (m m' : Manager) (values : gmap string V) :
  read_tags m = (Ok values, m') →
  connected m' = true →
  ∀ tag, tag ∈ tags m → is_Some (values !! Tag.name tag).
Proof.
  intros Hrun Hc. rewrite read_tags_run in Hrun.
  destruct (_ensure_connection_returns m) as (b & m0 & He & Htags & _).
  rewrite He in Hrun. destruct b.
  - rewrite Htags in Hrun. by apply (read_loop_keys _ _ _ _ _ Hrun).
  - injection Hrun as <- <-.
    rewrite _ensure_connection_run in He.
    destruct (connected m); [destruct (client_get_connected (client m)) |];
      injection He as Hb Hm; subst m0; congruence.
Qed.

Lemma read_tags_key_origin (m m' : Manager) (values : gmap string V) (k : string) :
  read_tags m = (Ok values, m') →
  is_Some (values !! k) →
  ∃ tag, tag ∈ tags m ∧ Tag.name tag = k.
Proof.
  intros Hrun Hk. rewrite read_tags_run in Hrun.
  destruct (_ensure_connection_returns m) as (b & m0 & He & Htags & _).
  rewrite He in Hrun. destruct b.
  - rewrite Htags in Hrun.
    destruct (read_loop_keys _ _ _ _ _ Hrun) as (_ & Hfrom & _).
    destruct (Hfrom k Hk) as [Hin | Htag]; [| done].
    rewrite lookup_empty in Hin. by destruct Hin.
  - injection Hrun as <- <-. rewrite lookup_empty in Hk. by destruct Hk.
Qed.

(** X11. Every key of the dict that [read_tags] returns is the name of a
    configured tag. *)
Theorem read_tags_keys_are_tag_names (m m' : Manager) (values : gmap string V)
    (k : string) :
  read_tags m = (Ok values, m') →
  is_Some (values !! k) →
  ∃ tag, tag ∈ tags m ∧ Tag.name tag = k.
Proof. apply read_tags_key_origin. Qed.

(** The configuration of a manager. *)
Lemma read_loop_configuration (tags0 : list (Tag.t V)) (values : gmap string V)
    (m : Manager) :
  name (read_loop tags0 values m).2 = name m ∧
  ip (read_loop tags0 values m).2 = ip m ∧
  rack (read_loop tags0 values m).2 = rack m ∧
  slot (read_loop tags0 values m).2 = slot m ∧
  tags (read_loop tags0 values m).2 = tags m.
Proof.
  revert values m. induction tags0 as [|tag tags0 IH]; intros values m; [done |].
  cbn [read_loop]. unfold bind. rewrite read_tag_run.
  destruct (fetch tag (client m)) as [[v|e] c']; [| done].
  apply (IH _ (after_reads [tag] c' m)).
Qed.

Lemma read_tags_configuration (m : Manager) :
  name (read_tags m).2 = name m ∧
  ip (read_tags m).2 = ip m ∧
  rack (read_tags m).2 = rack m ∧
  slot (read_tags m).2 = slot m ∧
  tags (read_tags m).2 = tags m.
Proof.
  assert (name (_ensure_connection m).2 = name m ∧
          ip (_ensure_connection m).2 = ip m ∧
          rack (_ensure_connection m).2 = rack m ∧
          slot (_ensure_connection m).2 = slot m ∧
          tags (_ensure_connection m).2 = tags m) as He.
  { rewrite _ensure_connection_run.
    destruct (connected m); [destruct (client_get_connected (client m)) |];
      try done;
      (rewrite connect_run by done;
       by destruct (client_connect _ _ _ _) as [[[]|e] c']). }
  rewrite read_tags_run.
  destruct (_ensure_connection m) as [[[]|e] m0]; cbn [snd] in *; [| done | done].
  destruct (read_loop_configuration (tags m0) ∅ m0) as (-> & -> & -> & -> & ->).
  exact He.
Qed.

(** X12. [read_tags] changes the session, the flag, the error and nothing
    else: name, address, rack, slot and tag list come out as they went in. *)
Theorem read_tags_keeps_configuration (m : Manager) :
  name (read_tags m).2 = name m ∧
  ip (read_tags m).2 = ip m ∧
  rack (read_tags m).2 = rack m ∧
  slot (read_tags m).2 = slot m ∧
  tags (read_tags m).2 = tags m.
Proof. apply read_tags_configuration. Qed.

Lemma connect_error_shown (m : Manager) : error_shown m → error_shown (connect m).2.
Proof.
  intros Hm. destruct (connected m) eqn:Hc.
  - by rewrite connect_noop.
  - rewrite connect_run by done.
    destruct (client_connect _ _ _ _) as [[[]|e] c']; unfold error_shown; cbn; [| done].
    by destruct (client_get_connected c').
Qed.

Lemma read_loop_error_shown (tags : list (Tag.t V)) (values : gmap string V) (m : Manager) :
  error_shown m → error_shown (read_loop tags values m).2.
Proof.
  revert values m. induction tags as [|tag tags IH]; intros values m Hm; [done |].
  cbn [read_loop]. unfold bind. rewrite read_tag_run.
  destruct (fetch tag (client m)) as [[v|e] c']; [| done].
  apply IH. exact Hm.
Qed.

(** X13. In every manager that the constructor and the methods can produce,
    a recorded error is never the empty string, so the status line of a
    manager whose flag is down shows its error whenever it has one, and says
    nicht verbunden only when it has none. *)
Theorem recorded_error_is_shown (m : Manager) :
  reachable m →
  last_error m ≠ Some "" ∧
  (connected m = false →
   Routes.status_part m =
     match last_error m with
     | Some e => name m +:+ ": " +:+ e
     | None => name m +:+ ": nicht verbunden"
     end).
Proof.
  intros Hr.
  assert (error_shown m) as Hm.
  { induction Hr as [| m _ IH | m _ IH | m _ IH | m c _ IH].
    - done.
    - by apply connect_error_shown.
    - rewrite _ensure_connection_run.
      destruct (connected m); [destruct (client_get_connected (client m)) |]; cbn [snd].
      + exact IH.
      + by apply connect_error_shown.
      + by apply connect_error_shown.
    - rewrite read_tags_run.
      assert (error_shown (_ensure_connection m).2) as He.
      { rewrite _ensure_connection_run.
        destruct (connected m); [destruct (client_get_connected (client m)) |]; cbn [snd].
        - exact IH.
        - by apply connect_error_shown.
        - by apply connect_error_shown. }
      destruct (_ensure_connection m) as [[[]|e] m0]; cbn [snd] in *; [| done | done].
      by apply read_loop_error_shown.
    - exact IH. }
  split; [exact Hm |].
  intros Hc. unfold Routes.status_part. rewrite Hc.
  destruct (last_error m) as [[|a e]|] eqn:He; [by destruct Hm | done | done].
Qed.

End ManagerMore.

(** ** Splitting and joining *)

Lemma append_nil_l (s : string) : "" +:+ s = s.
Proof. reflexivity. Qed.

Lemma append_cons (c : ascii) (p s : string) : String c p +:+ s = String c (p +:+ s).
Proof. reflexivity. Qed.

Lemma split_not_nil (sep : ascii) (s : string) : split sep s ≠ [].
Proof.
  destruct s as [|c rest]; cbn; [done |].
  destruct (Ascii.eqb c sep); [done |]. by destruct (split sep rest).
Qed.

Lemma join_cons (sep p : string) (rest : list string) :
  rest ≠ [] → join sep (p :: rest) = p +:+ sep +:+ join sep rest.
Proof. by destruct rest. Qed.

(** X14. Joining the parts that [split] returns with the separator gives the
    string back: [split] loses nothing, and it never returns an empty
    list. *)
Theorem join_split (sep : ascii) (s : string) :
  split sep s ≠ [] ∧ join (String sep "") (split sep s) = s.
Proof.
  split; [apply split_not_nil |].
  induction s as [|c rest IH]; [done |]. cbn [split].
  destruct (Ascii.eqb_spec c sep) as [->|Hne].
  - rewrite join_cons by apply split_not_nil. cbn. by rewrite IH.
  - pose proof (split_not_nil sep rest) as Hnil.
    destruct (split sep rest) as [|w ws]; [done |].
    destruct ws as [|w' ws].
    + cbn in *. by rewrite IH.
    + rewrite join_cons by done. rewrite join_cons in IH by done.
      cbn. by rewrite <- IH.
Qed.

Lemma split_no_separator (sep : ascii) (p : string) :
  contains sep p = false → split sep p = [p].
Proof.
  induction p as [|c p IH]; [done |]. cbn [split contains].
  intros [Hc Hp]%orb_false_elim. by rewrite Hc, (IH Hp).
Qed.

Lemma split_append (sep : ascii) (p rest : string) :
  contains sep p = false →
  split sep (p +:+ String sep rest) = p :: split sep rest.
Proof.
  induction p as [|c p IH]; cbn [contains].
  - intros _. rewrite append_nil_l. cbn [split]. by rewrite Ascii.eqb_refl.
  - intros [Hc Hp]%orb_false_elim.
    rewrite append_cons. cbn [split]. by rewrite Hc, (IH Hp).
Qed.

(** X15. Splitting a joined list gives the list back, when the list is not
    empty and no part holds the separator. *)
Theorem split_join (sep : ascii) (parts : list string) :
  parts ≠ [] → Forall (fun p => contains sep p = false) parts →
  split sep (join (String sep "") parts) = parts.
Proof.
  intros Hnil Hparts. induction Hparts as [|p parts Hp Hparts IH]; [done |].
  destruct parts as [|p' parts].
  - cbn. by apply split_no_separator.
  - rewrite join_cons by done. rewrite append_cons, append_nil_l.
    rewrite split_append by done. by rewrite IH.
Qed.

(** X16. No part that [split] returns holds the separator. *)
Theorem split_parts_have_no_separator (sep : ascii) (s : string) :
  Forall (fun p => contains sep p = false) (split sep s).
Proof.
  induction s as [|c rest IH]; cbn [split].
  - by constructor.
  - destruct (Ascii.eqb_spec c sep) as [->|Hne].
    + by constructor.
    + assert (Ascii.eqb c sep = false) as Hc by (by destruct (Ascii.eqb_spec c sep)).
      destruct (split sep rest) as [|w ws].
      * repeat constructor. cbn. by rewrite Hc.
      * apply Forall_cons in IH as [Hw Hws]. constructor; [| done].
        cbn. by rewrite Hw, Hc.
Qed.

(** ** More on the routes *)

Section RoutesMore.
Context {C T V : Type}.
Import Routes.

Abbreviation Device := (@PLCManager.t C V).



Lemma dict_set_fresh {A} (k : string) (v : A) (d : list (string * A)) :
  k ∉ d.*1 → dict_set k v d = d ++ [(k, v)].
Proof.
  induction d as [|[k' v'] d IH]; cbn; [done |].
  rewrite not_elem_of_cons. intros [Hne Hnot].
  rewrite (proj2 (String.eqb_neq k' k)) by done. by rewrite IH.
Qed.

Lemma plcs_from_distinct (managers : list Device) (acc : list (string * pyobj)) :
  NoDup (acc.*1 ++ (PLCManager.name <$> managers)) →
  plcs_from managers acc =
    acc ++ ((fun m => (PLCManager.name m, PBool (PLCManager.connected m))) <$> managers).
Proof.
  revert acc. induction managers as [|m managers IH]; intros acc Hnd; cbn.
  - by rewrite app_nil_r.
  - cbn in Hnd. apply NoDup_app in Hnd as (Hacc & Hdisj & Hms).
    apply NoDup_cons in Hms as [Hm Hms].
    assert (PLCManager.name m ∉ acc.*1) as Hfresh.
    { intros Hin. apply (Hdisj _ Hin). left. }
    rewrite dict_set_fresh by done. rewrite IH.
    + by rewrite <- app_assoc.
    + rewrite fmap_app. cbn. rewrite <- app_assoc. cbn.
      apply NoDup_app. split; [done |]. split; [| by apply NoDup_cons].
      intros x Hx. by apply Hdisj.
Qed.

(** X18. When the device names are distinct, [health] lists every device
    once, in configuration order, each with its flag. *)
Theorem health_distinct_names (managers : list Device) :
  NoDup (PLCManager.name <$> managers) →
  health managers =
    PDict [("status", PStr "ok");
           ("plcs",
            PDict ((fun m => (PLCManager.name m, PBool (PLCManager.connected m)))
                     <$> managers))].
Proof.
  intros Hnd. unfold health. by rewrite plcs_from_distinct.
Qed.

End RoutesMore.

(** ** The reader *)

Section ReaderFacts.
Context {C T V : Type} `{!Client C} `{!Util V}.
Import PLCReader.

Abbreviation Manager := (@PLCManager.t C V).
Abbreviation Buffer := (@DataBuffer.t T V).

Lemma append_inj_l (p a b : string) : p +:+ a = p +:+ b → a = b.
Proof.
  induction p as [|c p IH]; [done |].
  rewrite !append_cons. intros Heq. injection Heq as Heq. by apply IH.
Qed.

Lemma key_of_inj (device n1 n2 : string) :
  key_of device n1 = key_of device n2 → n1 = n2.
Proof. unfold key_of. intros Heq. by do 2 apply append_inj_l in Heq. Qed.

Lemma well_formed_init (n : Z) : 0 ≤ n → well_formed (DataBuffer.__init__ (T:=T) (V:=V) n).
Proof. intros Hn. split; [done |]. intros key d Hk. cbn in Hk. by rewrite lookup_empty in Hk. Qed.

Lemma deque_append_sound (cap : Z) (x : @DataBuffer.Sample T V)
    (d : deque (@DataBuffer.Sample T V)) :
  0 ≤ cap → dq_maxlen d = cap → Z.of_nat (length (dq_items d)) ≤ cap →
  dq_maxlen (deque_append x d) = cap ∧
  dq_items (deque_append x d) = lastn cap (dq_items d ++ [x]) ∧
  Z.of_nat (length (dq_items (deque_append x d))) ≤ cap.
Proof.
  intros Hcap Hmax Hlen. unfold deque_append, lastn. cbn [dq_maxlen dq_items].
  rewrite Hmax, length_app. cbn [length]. split; [done |].
  destruct (Z.ltb_spec cap (Z.of_nat (length (dq_items d) + 1))) as [Hfull|Hroom].
  - replace (length (dq_items d) + 1 - Z.to_nat cap)%nat with 1%nat by lia.
    destruct (dq_items d ++ [x]) as [|y ys] eqn:Hd.
    + by destruct (dq_items d).
    + cbn [tail drop]. rewrite drop_0. split; [done |].
      assert (length (dq_items d ++ [x]) = S (length ys)) as Hl by (by rewrite Hd).
      rewrite length_app in Hl. cbn in Hl. lia.
  - replace (length (dq_items d) + 1 - Z.to_nat cap)%nat with 0%nat by lia.
    rewrite drop_0, length_app. cbn [length]. split; [done | lia].
Qed.

(** One [append] on a sound buffer. *)
Lemma well_formed_append (key : string) (ts : T) (v : V) (b : Buffer) :
  well_formed b →
  ∃ b', DataBuffer.append key ts v b = (Ok tt, b') ∧
        well_formed b' ∧ DataBuffer.maxlen b' = DataBuffer.maxlen b ∧
        items_of b' key = lastn (DataBuffer.maxlen b) (items_of b key ++ [(ts, v)]) ∧
        ∀ key', key ≠ key' → items_of b' key' = items_of b key'.
Proof.
  intros [Hcap Hwf]. eexists. split; [by apply append_run |].
  assert (dq_maxlen (default (mk_deque (DataBuffer.maxlen b) [])
                       (DataBuffer._data b !! key)) = DataBuffer.maxlen b ∧
          Z.of_nat (length (dq_items (default (mk_deque (DataBuffer.maxlen b) [])
                                        (DataBuffer._data b !! key))))
            ≤ DataBuffer.maxlen b ∧
          dq_items (default (mk_deque (DataBuffer.maxlen b) [])
                      (DataBuffer._data b !! key)) = items_of b key) as (Hm & Hl & Hi).
  { unfold items_of. destruct (DataBuffer._data b !! key) as [d|] eqn:Hk; cbn.
    - destruct (Hwf key d Hk). by repeat split.
    - repeat split. lia. }
  destruct (deque_append_sound (DataBuffer.maxlen b) (ts, v) _ Hcap Hm Hl)
    as (Hm' & Hi' & Hl').
  split; [| split; [done | split]].
  - split; [done |]. cbn [DataBuffer.maxlen DataBuffer._data].
    intros key' d'. destruct (decide (key = key')) as [<-|Hne].
    + rewrite lookup_insert_eq. intros [= <-]. by split.
    + rewrite lookup_insert_ne by done. apply Hwf.
  - unfold items_of at 1. cbn [DataBuffer._data]. rewrite lookup_insert_eq.
    cbv beta iota. unfold DataBuffer.Sample in *. by rewrite Hi', Hi.
  - intros key' Hne. unfold items_of. cbn [DataBuffer._data].
    by rewrite lookup_insert_ne.
Qed.

(** The loop of [run] over items of distinct names, on a sound buffer. *)
Lemma publish_sound (device : string) (ts : T) (items : list (string * V)) (b : Buffer) :
  well_formed b → NoDup items.*1 →
  ∃ b', publish device ts items b = (Ok tt, b') ∧
        well_formed b' ∧ DataBuffer.maxlen b' = DataBuffer.maxlen b ∧
        (∀ n v, (n, v) ∈ items →
           items_of b' (key_of device n)
             = lastn (DataBuffer.maxlen b) (items_of b (key_of device n) ++ [(ts, v)])) ∧
        (∀ key, (∀ n, n ∈ items.*1 → key ≠ key_of device n) →
           items_of b' key = items_of b key).
Proof.
  revert b. induction items as [|[n0 v0] items IH]; intros b Hb Hnd.
  - exists b. do 3 (split; [done |]). split; [| done].
    intros n v Hin. by apply elem_of_nil in Hin.
  - cbn in Hnd. apply NoDup_cons in Hnd as [Hn0 Hnd].
    destruct (well_formed_append (key_of device n0) ts v0 b Hb)
      as (b1 & Hrun1 & Hb1 & Hmax1 & Hkey1 & Hother1).
    destruct (IH b1 Hb1 Hnd) as (b' & Hrun & Hb' & Hmax & Hin' & Hout').
    exists b'. split; [| split; [done | split; [congruence | split]]].
    + cbn [publish]. unfold bind. by rewrite Hrun1.
    + intros n v Hin. apply elem_of_cons in Hin as [[= -> ->] | Hin].
      * rewrite Hout'; [done |].
        intros n Hn Heq. apply key_of_inj in Heq as ->. done.
      * rewrite (Hin' n v Hin), Hmax1. rewrite Hother1; [done |].
        intros Heq. apply key_of_inj in Heq as ->.
        apply Hn0. apply list_elem_of_fmap. by exists (n, v).
    + intros key Hkey. rewrite Hout'.
      * apply Hother1. intros Heq. by apply (Hkey n0); [left |].
      * intros n Hn. apply Hkey. by right.
Qed.

(** X19. A pass of the reader loop in which [read_tags] returns, on a sound
    buffer whose bound fits a [Py_ssize_t], raises nothing. Every name the
    manager returned a value for gets that value, stamped with the start
    time of the pass, at the end of the history of its key, the oldest
    sample going when the history is full; the history of every other key
    is as before. *)
Theorem cycle_publishes_values (start_time : T) (m m' : Manager) (b : Buffer)
    (values : gmap string V) :
  well_formed b → DataBuffer.maxlen b ≤ ssize_t_max →
  PLCManager.read_tags m = (Ok values, m') →
  ∃ b',
    cycle start_time (m, b) = (Ok tt, (m', b')) ∧
    well_formed b' ∧ DataBuffer.maxlen b' = DataBuffer.maxlen b ∧
    (∀ n v, values !! n = Some v →
       items_of b' (key_of (PLCManager.name m) n)
         = lastn (DataBuffer.maxlen b)
             (items_of b (key_of (PLCManager.name m) n) ++ [(start_time, v)])) ∧
    (∀ key, (∀ n, is_Some (values !! n) → key ≠ key_of (PLCManager.name m) n) →
       items_of b' key = items_of b key).
Proof.
  intros Hb _ Hrt.
  destruct (read_tags_configuration m) as (Hname & _). rewrite Hrt in Hname. cbn in Hname.
  destruct (publish_sound (PLCManager.name m) start_time (map_to_list values) b Hb)
    as (b' & Hrun & Hb' & Hmax & Hin & Hout); [apply NoDup_fst_map_to_list |].
  exists b'. split; [| split; [done | split; [done | split]]].
  - unfold cycle, bind, in_fst, in_snd, get. cbn [fst snd]. rewrite Hrt.
    cbn [fst snd]. by rewrite Hname, Hrun.
  - intros n v Hv. apply Hin. by apply elem_of_map_to_list.
  - intros key Hkey. apply Hout. intros n Hn. apply Hkey.
    apply list_elem_of_fmap in Hn as ([n' v] & -> & Hn).
    apply elem_of_map_to_list in Hn. by exists v.
Qed.


(** X22. A pass in which the connection cannot be made appends nothing: the
    buffer comes out as it went in, whatever its bound. *)
Theorem cycle_without_connection (start_time : T) (m m0 : Manager) (b : Buffer) :
  PLCManager._ensure_connection m = (Ok false, m0) →
  cycle start_time (m, b) = (Ok tt, (m0, b)).
Proof.
  intros He. unfold cycle, bind, in_fst, in_snd, get. cbn [fst snd].
  rewrite read_tags_run, He. cbn [fst snd]. by rewrite map_to_list_empty.
Qed.

(** X23. Every key that a reader can write a sample under is on the list of
    signals that [index] hands to the page. *)
Theorem all_signals_cover_published_keys (managers : list Manager) (m m' : Manager)
    (values : gmap string V) (n : string) :
  m ∈ managers →
  PLCManager.read_tags m = (Ok values, m') →
  is_Some (values !! n) →
  key_of (PLCManager.name m) n ∈ all_signals managers.
Proof.
  intros Hm Hrt Hn.
  destruct (read_tags_key_origin m m' values n Hrt Hn) as (tag & Htag & <-).
  unfold all_signals. apply list_elem_of_bind. exists m. split; [| done].
  apply list_elem_of_bind. exists tag. split; [| done].
  apply list_elem_of_singleton. done.
Qed.

End ReaderFacts.

(** X24. Keys tell devices apart as long as no device name holds a dot: two
    keys built from such names are equal only when both the device names
    and the signal names are. *)
Theorem key_of_injective (d1 d2 n1 n2 : string) :
  contains "." d1 = false → contains "." d2 = false →
  PLCReader.key_of d1 n1 = PLCReader.key_of d2 n2 →
  d1 = d2 ∧ n1 = n2.
Proof.
  unfold PLCReader.key_of. revert d2.
  induction d1 as [|c d1 IH]; intros [|c' d2] H1 H2 Heq.
  - split; [done |]. by apply (append_inj_l ".").
  - rewrite append_nil_l, !append_cons, append_nil_l in Heq.
    injection Heq as <- _. cbn in H2. done.
  - rewrite append_nil_l, !append_cons, append_nil_l in Heq.
    injection Heq as -> _. cbn in H1. done.
  - rewrite !append_cons in Heq. injection Heq as -> Heq.
    cbn in H1, H2. apply orb_false_elim in H1 as [_ H1].
    apply orb_false_elim in H2 as [_ H2].
    destruct (IH d2 H1 H2 Heq) as [-> ->]. done.
Qed.

(** ** The configuration *)

Section ConfigFacts.
Context {C V : Type}.

Abbreviation Manager := (@PLCManager.t C V).

Lemma build_managers_from_map (fresh_client : C) (config : list (PlcConfig.t V))
    (managers : list Manager) :
  build_managers_from fresh_client config managers
    = managers ++ (initial fresh_client <$> config).
Proof.
  revert managers. induction config as [|cfg config IH]; intros managers; cbn.
  - by rewrite app_nil_r.
  - by rewrite IH, <- app_assoc.
Qed.

(** X25. [build_managers] makes one manager per entry of the configuration,
    in the order of the entries, each with the name and the tags of its
    entry, its flag down, no error recorded and no call made on its client;
    the status line of each says nicht verbunden. *)
Theorem build_managers_initial (fresh_client : C) (config : list (PlcConfig.t V)) :
  PLCManager.name <$> build_managers fresh_client config = PlcConfig.name <$> config ∧
  PLCManager.tags <$> build_managers fresh_client config = PlcConfig.tags <$> config ∧
  Forall (fun m : Manager =>
            PLCManager.connected m = false ∧ PLCManager.last_error m = None ∧
            PLCManager.calls m = [] ∧
            Routes.status_part m = PLCManager.name m +:+ ": nicht verbunden")
         (build_managers fresh_client config).
Proof.
  unfold build_managers. rewrite build_managers_from_map. cbn [app].
  rewrite <- !list_fmap_compose. repeat split.
  apply Forall_fmap, Forall_forall. intros cfg _. by repeat split.
Qed.

(** The list of signals of [index] for the managers built from a
    configuration has one key per configured tag, device by device and tag
    by tag in configuration order. *)
Lemma all_signals_of_configuration (fresh_client : C) (config : list (PlcConfig.t V)) :
  all_signals (build_managers fresh_client config) =
    (cfg ← config;
     (fun tag => PLCReader.key_of (PlcConfig.name cfg) (Tag.name tag))
       <$> PlcConfig.tags cfg) ∧
  length (all_signals (build_managers fresh_client config))
    = sum_list ((fun cfg => length (PlcConfig.tags cfg)) <$> config).
Proof.
  unfold build_managers. rewrite build_managers_from_map. cbn [app].
  assert (all_signals (initial fresh_client <$> config) =
            (cfg ← config;
             (fun tag => PLCReader.key_of (PlcConfig.name cfg) (Tag.name tag))
               <$> PlcConfig.tags cfg)) as Heq.
  { unfold all_signals. induction config as [|cfg config IH]; [done |].
    rewrite fmap_cons, !bind_cons, IH. f_equal. }
  split; [done |]. rewrite Heq. clear Heq.
  induction config as [|cfg config IH]; [done |].
  rewrite bind_cons, length_app, length_fmap, IH. done.
Qed.

End ConfigFacts.

(** ** The further properties on concrete inputs *)

Lemma history_never_exceeds_bound_witness :
  ∃ s : @DataBuffer.t Z Z,
    DataBuffer.appends [("A.x", (1, 10)); ("B.y", (1, 5)); ("A.x", (2, 20)); ("A.x", (3, 30))]
      (DataBuffer.__init__ 2) = (Ok tt, s) ∧
    Z.of_nat (length (items_of s "A.x")) ≤ 2.
Proof.
  apply (history_never_exceeds_bound 2
           [("A.x", (1, 10)); ("B.y", (1, 5)); ("A.x", (2, 20)); ("A.x", (3, 30))] "A.x").
  unfold ssize_t_max. lia.
Defined.

Lemma history_below_bound_complete_witness :
  ∃ s : @DataBuffer.t Z Z,
    DataBuffer.appends [("A.x", (1, 10)); ("B.y", (1, 5)); ("A.x", (2, 20))]
      (DataBuffer.__init__ 3) = (Ok tt, s) ∧
    DataBuffer.snapshot ["A.x"] s = (Ok {["A.x" := [(1, 10); (2, 20)]]}, s).
Proof.
  apply (history_below_bound_complete 3
           [("A.x", (1, 10)); ("B.y", (1, 5)); ("A.x", (2, 20))] "A.x");
    [unfold ssize_t_max; lia | vm_compute; discriminate].
Defined.

Lemma newest_sample_is_last_witness :
  ∃ s : @DataBuffer.t Z Z,
    DataBuffer.appends ([("A.x", (1, 10)); ("A.x", (2, 20))] ++ [("A.x", (3, 30))])
      (DataBuffer.__init__ 2) = (Ok tt, s) ∧
    last (items_of s "A.x") = Some (3, 30).
Proof.
  apply (newest_sample_is_last 2 [("A.x", (1, 10)); ("A.x", (2, 20))] "A.x" 3 30).
  unfold ssize_t_max. lia.
Defined.

Lemma negative_bound_append_raises_witness :
  DataBuffer.appends [("A.x", (1, 10)); ("A.x", (2, 20))] (DataBuffer.__init__ (-1))
    = (Raise "maxlen must be non-negative", DataBuffer.__init__ (T:=Z) (V:=Z) (-1)).
Proof.
  apply (negative_bound_append_raises (-1) [("A.x", (1, 10)); ("A.x", (2, 20))]);
    [unfold ssize_t_min; lia | discriminate].
Defined.

Lemma append_leaves_other_keys_witness :
  items_of (DataBuffer.append "A.x" 2 20
              (DataBuffer.appends [("B.y", (1, 5))] (DataBuffer.__init__ 3)).2).2 "B.y"
    = items_of (DataBuffer.appends [("B.y", (1, 5))] (DataBuffer.__init__ (T:=Z) (V:=Z) 3)).2
        "B.y".
Proof.
  apply (append_leaves_other_keys "A.x" "B.y" 2 20). discriminate.
Defined.

Lemma _ensure_connection_attempts_witness :
  connect_attempts (PLCManager.calls (PLCManager._ensure_connection five_signals).2)
    = (connect_attempts (PLCManager.calls five_signals) + 1)%nat.
Proof.
  assert (PLCManager._ensure_connection five_signals
            = (Ok true, (PLCManager._ensure_connection five_signals).2)) as H1
    by (vm_compute; reflexivity).
  exact (_ensure_connection_attempts five_signals _ true H1).
Defined.

Lemma connect_outcome_witness :
  ∃ m', PLCManager.connect five_signals = (Ok tt, m') ∧
        (PLCManager.connected m' = true ↔ PLCManager.last_error m' = None) ∧
        connect_attempts (PLCManager.calls m')
          = S (connect_attempts (PLCManager.calls five_signals)).
Proof. apply (connect_outcome five_signals). reflexivity. Defined.

(** The client that reaches nothing: the error of the failed attempt is on
    the status line. *)
Lemma _ensure_connection_failure_recorded_witness :
  PLCManager.connected (PLCManager._ensure_connection lost_signals).2 = false ∧
  (false = false →
   ∃ e, PLCManager.last_error (PLCManager._ensure_connection lost_signals).2 = Some e ∧
        e ≠ "" ∧
        Routes.status_part (PLCManager._ensure_connection lost_signals).2
          = PLCManager.name lost_signals +:+ ": " +:+ e).
Proof.
  assert (PLCManager._ensure_connection lost_signals
            = (Ok false, (PLCManager._ensure_connection lost_signals).2)) as H1
    by (vm_compute; reflexivity).
  exact (_ensure_connection_failure_recorded lost_signals _ false H1).
Defined.

Example lost_signals_status :
  Routes.status_part (PLCManager._ensure_connection lost_signals).2
    = "dev: Connection error: unreachable".
Proof. reflexivity. Qed.

Lemma read_tags_complete_or_disconnected_witness :
  is_Some ((<["y" := 5]> (<["x" := 3]> ∅) : gmap string Z)
             !! Tag.name (demo_tag "y" 2 5 "Int")).
Proof.
  assert (demo_tag "y" 2 5 "Int" ∈ PLCManager.tags good_signals) as H0
    by (right; left).
  assert (PLCManager.read_tags good_signals
            = (Ok (<["y" := 5]> (<["x" := 3]> ∅)), (PLCManager.read_tags good_signals).2))
    as H1 by (vm_compute; reflexivity).
  assert (PLCManager.connected (PLCManager.read_tags good_signals).2 = true) as H2
    by (vm_compute; reflexivity).
  exact (read_tags_complete_or_disconnected good_signals _ _ H1 H2 _ H0).
Defined.

Lemma read_tags_keys_are_tag_names_witness :
  ∃ tag, tag ∈ PLCManager.tags five_signals ∧ Tag.name tag = "s2".
Proof.
  assert (PLCManager.read_tags five_signals
            = (Ok (<["s2" := 4]> (<["s1" := 0]> ∅)), (PLCManager.read_tags five_signals).2))
    as H1 by (vm_compute; reflexivity).
  assert (is_Some ((<["s2" := 4]> (<["s1" := 0]> ∅) : gmap string Z) !! "s2")) as H2
    by (vm_compute; eauto).
  exact (read_tags_keys_are_tag_names five_signals _ _ "s2" H1 H2).
Defined.

Lemma recorded_error_is_shown_witness :
  PLCManager.last_error (PLCManager.read_tags five_signals).2 ≠ Some "" ∧
  (PLCManager.connected (PLCManager.read_tags five_signals).2 = false →
   Routes.status_part (PLCManager.read_tags five_signals).2 =
     match PLCManager.last_error (PLCManager.read_tags five_signals).2 with
     | Some e => PLCManager.name (PLCManager.read_tags five_signals).2 +:+ ": " +:+ e
     | None => PLCManager.name (PLCManager.read_tags five_signals).2 +:+ ": nicht verbunden"
     end).
Proof.
  apply (recorded_error_is_shown (PLCManager.read_tags five_signals).2).
  apply reach_read_tags. apply reach_init.
Defined.

Lemma split_join_witness :
  split "," (join "," ["A.x"; ""; "B.y"]) = ["A.x"; ""; "B.y"].
Proof.
  apply (split_join "," ["A.x"; ""; "B.y"]); [discriminate |].
  repeat constructor.
Defined.

Lemma health_distinct_names_witness :
  Routes.health two_devices =
    PDict [("status", PStr "ok");
           ("plcs", PDict [("dev1", PBool true); ("dev2", PBool false)])].
Proof. apply (health_distinct_names two_devices). compute_done. Defined.

(** One pass over the device with two readable blocks, on an empty buffer of
    bound 3. *)
Lemma cycle_publishes_values_witness :
  ∃ b' : @DataBuffer.t Z Z,
    PLCReader.cycle 7 (good_signals, DataBuffer.__init__ 3)
      = (Ok tt, ((PLCManager.read_tags good_signals).2, b')) ∧
    well_formed b' ∧ DataBuffer.maxlen b' = 3 ∧
    items_of b' "dev.x" = [(7, 3)].
Proof.
  assert (PLCManager.read_tags good_signals
            = (Ok (<["y" := 5]> (<["x" := 3]> ∅)), (PLCManager.read_tags good_signals).2))
    as H1 by (vm_compute; reflexivity).
  assert (DataBuffer.maxlen (DataBuffer.__init__ (T:=Z) (V:=Z) 3) ≤ ssize_t_max) as H2
    by (vm_compute; discriminate).
  destruct (cycle_publishes_values 7 good_signals _ (DataBuffer.__init__ 3) _
              (well_formed_init 3 ltac:(lia)) H2 H1)
    as (b' & H3 & H4 & H5 & H6 & _).
  exists b'. split; [done |]. split; [done |]. split; [done |].
  apply (H6 "x" 3). vm_compute. reflexivity.
Defined.

Example cycle_good_signals :
  (λ s, (items_of s.2 "dev.x", items_of s.2 "dev.y"))
    (PLCReader.cycles [7; 8] (good_signals, DataBuffer.__init__ (T:=Z) 3)).2
    = ([(7, 3); (8, 3)], [(7, 5); (8, 5)]).
Proof. vm_compute. reflexivity. Qed.


Lemma cycle_without_connection_witness :
  PLCReader.cycle 7 (lost_signals, DataBuffer.__init__ (T:=Z) 500)
    = (Ok tt, ((PLCManager._ensure_connection lost_signals).2, DataBuffer.__init__ 500)).
Proof.
  apply (cycle_without_connection 7 lost_signals). vm_compute. reflexivity.
Defined.

Lemma all_signals_cover_published_keys_witness :
  PLCReader.key_of "dev" "s2" ∈ all_signals [good_signals; five_signals].
Proof.
  assert (five_signals ∈ [good_signals; five_signals]) as H0 by (right; left).
  assert (PLCManager.read_tags five_signals
            = (Ok (<["s2" := 4]> (<["s1" := 0]> ∅)), (PLCManager.read_tags five_signals).2))
    as H1 by (vm_compute; reflexivity).
  assert (is_Some ((<["s2" := 4]> (<["s1" := 0]> ∅) : gmap string Z) !! "s2")) as H2
    by (vm_compute; eauto).
  exact (all_signals_cover_published_keys [good_signals; five_signals] five_signals
           _ _ "s2" H0 H1 H2).
Defined.

Lemma key_of_injective_witness :
  "plc_1500" = "plc_1500" ∧ "thermo_1" = "thermo_1".
Proof.
  apply (key_of_injective "plc_1500" "plc_1500" "thermo_1" "thermo_1"); reflexivity.
Defined.

(** The configuration of the program: twelve keys, no two alike. *)
Example all_signals_of_plc_config :
  all_signals (build_managers (V:=Z) tt plc_config) =
    ["plc_1500.thermo_1"; "plc_1500.thermo_2"; "plc_1500.pid_kp"; "plc_1500.pid_ki";
     "plc_1500.pid_kd"; "plc_1500.pid_output";
     "plc_et200sp.thermo_1"; "plc_et200sp.thermo_2"; "plc_et200sp.pid_kp";
     "plc_et200sp.pid_ki"; "plc_et200sp.pid_kd"; "plc_et200sp.pid_output"].
Proof. reflexivity. Qed.

(** ** Type names *)

Lemma lower_ascii_idem (c : ascii) : lower_ascii (lower_ascii c) = lower_ascii c.
Proof. by destruct c as [[] [] [] [] [] [] [] []]. Qed.

Lemma lower_idem (s : string) : lower (lower s) = lower s.
Proof. induction s as [|c s IH]; [done |]. cbn. by rewrite lower_ascii_idem, IH. Qed.

(** X26. The decoder of a tag without a parser of its own is chosen by the
    type name with the case of its letters ignored: a tag of a known type
    decodes as the tag with the same type written in lower case. *)
Theorem _parse_value_ignores_case {V : Type} `{!Util V} (tag : Tag.t V) (raw : bytes) :
  Tag.parse tag = None → supported (Tag.data_type tag) = true →
  PLCManager._parse_value tag raw =
    PLCManager._parse_value
      (Tag.mk (Tag.name tag) (Tag.db_number tag) (Tag.start tag) (Tag.size tag)
         (lower (Tag.data_type tag)) None)
      raw.
Proof.
  unfold PLCManager._parse_value, supported. intros -> Hs. cbn [Tag.parse Tag.data_type].
  rewrite lower_idem.
  destruct (String.eqb (lower (Tag.data_type tag)) "real"); [done |].
  destruct (String.eqb (lower (Tag.data_type tag)) "int"); [done |].
  destruct (String.eqb (lower (Tag.data_type tag)) "dint"); [done |].
  destruct (String.eqb (lower (Tag.data_type tag)) "bool"); [done |].
  done.
Qed.

Lemma _parse_value_ignores_case_witness :
  PLCManager._parse_value (demo_tag "c" 1 8 "REAL") [Byte.x08] =
    PLCManager._parse_value (Tag.mk "c" 1 8 4 (lower "REAL") None) [Byte.x08].
Proof.
  apply (_parse_value_ignores_case (demo_tag "c" 1 8 "REAL") [Byte.x08]); reflexivity.
Defined.

(** ** Between the statements of a method *)

Section StepsFacts.
Context {C V : Type} `{!Client C} `{!Util V}.

Abbreviation Manager := (@PLCManager.t C V).

Ltac run_steps :=
  unfold Steps.connect, PLCManager.connect, PLCManager.call_connect,
    PLCManager.call_get_connected, PLCManager.call_db_read, PLCManager.on_client,
    PLCManager.set_connected, PLCManager.set_last_error,
    ttry_except, try_except, statement, tbind, bind, tget, get, tret, ret, modify, lift;
  cbn.

(** Result and final state of the statement-by-statement methods are those
    of the methods. *)
Lemma steps_connect (m : Manager) : (Steps.connect m).1 = PLCManager.connect m.
Proof.
  run_steps. destruct (PLCManager.connected m); [done |].
  by destruct (client_connect _ _ _ _) as [[[]|e] c'].
Qed.

Lemma steps_ensure_connection (m : Manager) :
  (Steps._ensure_connection m).1 = PLCManager._ensure_connection m.
Proof.
  unfold Steps._ensure_connection, PLCManager._ensure_connection. run_steps.
  destruct (PLCManager.connected m) eqn:Hc; cbn.
  - destruct (client_get_connected (PLCManager.client m)); cbn.
    + by rewrite Hc.
    + by destruct (client_connect _ _ _ _) as [[[]|e] c'].
  - by destruct (client_connect _ _ _ _) as [[[]|e] c'].
Qed.

Lemma steps_read_tag (tag : Tag.t V) (values : gmap string V) (m : Manager) :
  (Steps.read_tag tag values m).1 = PLCManager.read_tag tag values m.
Proof.
  unfold Steps.read_tag, PLCManager.read_tag. run_steps.
  destruct (client_db_read _ _ _ _) as [[raw|e] c']; cbn; [| done].
  by destruct (PLCManager._parse_value tag raw).
Qed.

Lemma steps_read_loop (tags : list (Tag.t V)) (values : gmap string V) (m : Manager) :
  (Steps.read_loop tags values m).1 = PLCManager.read_loop tags values m.
Proof.
  revert values m. induction tags as [|tag tags IH]; intros values m; [done |].
  cbn [Steps.read_loop PLCManager.read_loop]. unfold tbind, bind.
  rewrite <- steps_read_tag.
  destruct (Steps.read_tag tag values m) as [[[[values'|]|e] m'] seen]; cbn; [| done | done].
  rewrite <- IH. by destruct (Steps.read_loop tags values' m') as [[r m''] seen'].
Qed.

Lemma steps_read_tags (m : Manager) :
  (Steps.read_tags m).1 = PLCManager.read_tags m.
Proof.
  unfold Steps.read_tags, PLCManager.read_tags. unfold tbind at 1, bind at 1.
  rewrite <- steps_ensure_connection.
  destruct (Steps._ensure_connection m) as [[[[]|e] m'] seen]; cbn; [| done | done].
  unfold tbind, tget, bind, get. rewrite <- steps_read_loop.
  by destruct (Steps.read_loop (PLCManager.tags m') ∅ m') as [[r m''] seen'].
Qed.

End StepsFacts.

(** C10, as the claim has it, fails. In the cycle over the five signals the
    read of the third fails; the handler records the error in one statement
    and takes the flag down in a later one. The state between the two has
    the flag set and the error recorded, and the status loop of [data],
    which takes no lock, renders it as connected. *)
Lemma flag_set_with_error_recorded :
  ∃ m : @PLCManager.t bool Z,
    (Steps.read_tags five_signals).2 !! 10%nat = Some m ∧
    PLCManager.connected m = true ∧
    PLCManager.last_error m = Some "Read error for s3: timeout" ∧
    Routes.status_part m = "dev: verbunden" ∧
    ¬ (PLCManager.connected m = true → PLCManager.last_error m = None).
Proof.
  eexists. split; [vm_compute; reflexivity |].
  split; [reflexivity |]. split; [reflexivity |]. split; [reflexivity |].
  intros H. specialize (H eq_refl). discriminate H.
Qed.
